(** * MCP-Tavily dashboard: the data refresh and state synchronisation core

    A shallow embedding of [app.js]: the data source adapter
    ([fetchMetrics], [fetchConnections], [fetchTools], [fetchLogs],
    [checkHealth]), the filter/sort pipeline of the table, grid and log views,
    the auto-refresh scheduler, [formatDuration] and the test-connection
    handler of the settings page.

    Conventions.
    - A JavaScript number is an exact value: whole numbers are [Z], fractional
      ones [Q].  Every finite double is a rational, and the code only adds,
      subtracts, divides by constants and compares signs, which is exact as
      long as the values stay below 2^53.
    - A string is a [string]; its characters stand for code units.
    - An [async] function runs to completion in one piece: an [await] is a
      sequencing point of the monad [M] below.
    - Writes to the DOM are render sinks and are not modelled; what a function
      reads from the DOM (the value of a select or input element) is an
      argument of its embedding. *)

From Stdlib Require Import List ZArith QArith Qabs String Ascii Bool Lia Lqa.
From Stdlib Require Import Permutation Sorted DecimalString OrderedTypeEx.
Import ListNotations.

Set Implicit Arguments.

Open Scope Z_scope.
Open Scope string_scope.

(* ====================================================================== *)
(** * The JavaScript runtime the code relies on *)
(* ====================================================================== *)

Module JS.

(** ** Strings *)

(** [ToString] of a whole number, as a template literal prints it. *)
Definition Number_toString (n : Z) : string :=
  NilZero.string_of_int (Z.to_int n).

(** Truthiness of a string: only the empty string is falsy. *)
Definition truthy_string (s : string) : bool :=
  match s with EmptyString => false | String _ _ => true end.

(** [a || b] on strings. *)
Definition or_string (a b : string) : string :=
  if truthy_string a then a else b.

(** [s.includes(sub)]: [sub] occurs in [s] as a contiguous run. *)
Fixpoint includes (s sub : string) : bool :=
  String.prefix sub s
  || match s with
     | EmptyString => false
     | String _ s' => includes s' sub
     end.

(** Lower-casing of one character of the ASCII range. *)
Definition lower_char (c : ascii) : ascii :=
  let n := nat_of_ascii c in
  if andb (Nat.leb 65 n) (Nat.leb n 90) then ascii_of_nat (n + 32) else c.

(** [toLowerCase] on strings of the ASCII range, where it works character
    by character. *)
Fixpoint toLowerCase_ascii (s : string) : string :=
  match s with
  | EmptyString => EmptyString
  | String c s' => String (lower_char c) (toLowerCase_ascii s')
  end.

(** Every character of the string is below 128. *)
Fixpoint is_ascii (s : string) : bool :=
  match s with
  | EmptyString => true
  | String c s' => Nat.ltb (nat_of_ascii c) 128 && is_ascii s'
  end.

(** ** Numbers *)

(** [Math.floor(a / b)] on whole numbers, for a positive constant [b]. *)
Definition floor_div (a b : Z) : Z := a / b.

(** [a % b]: the remainder takes the sign of the dividend. *)
Definition remainder (a b : Z) : Z := Z.rem a b.

(** ** Arrays *)

Section Sort.
Variable A : Type.

(** The comparator of [Array.prototype.sort]: a number, of which the sort
    reads the sign only. *)
Variable comparefn : A -> A -> Q.

(** [x] may stay in front of [y]. *)
Definition not_after (x y : A) : bool := Qle_bool (comparefn x y) 0.

Definition in_order (x y : A) : Prop := not_after x y = true.

(** The comparator ranks [x] and [y] equal. *)
Definition tied (x y : A) : bool := not_after x y && not_after y x.

Fixpoint sort_insert (x : A) (l : list A) : list A :=
  match l with
  | [] => [x]
  | y :: l' => if not_after x y then x :: y :: l' else y :: sort_insert x l'
  end.

(** [Array.prototype.sort(comparefn)], on the contents of the array.  The
    language fixes the result for a consistent comparator: the elements
    in comparator order, equal ones in their original order (the sort is
    stable since ES2019).  Which algorithm produces it is left to the
    engine; this one inserts from the right, each element in front of
    the first one it may stay in front of.  [Array_sort_unique] below
    shows that no other arrangement is in order and stable. *)
Fixpoint Array_sort (l : list A) : list A :=
  match l with
  | [] => []
  | x :: l' => sort_insert x (Array_sort l')
  end.
End Sort.

(** ** Completions: a call returns or throws *)

Record Error := { message : string }.

Inductive Completion (A : Type) : Type :=
| Return (a : A)
| Throw (e : Error).
Arguments Return {A} a.
Arguments Throw {A} e.

End JS.

(* ====================================================================== *)
(** * Utility functions *)
(* ====================================================================== *)

Definition formatDuration (seconds : Z) : string :=
  let hours := JS.floor_div seconds 3600 in
  let minutes := JS.floor_div (JS.remainder seconds 3600) 60 in
  let secs := JS.remainder seconds 60 in
  if hours >? 0 then
    JS.Number_toString hours ++ "h " ++ JS.Number_toString minutes ++ "m"
  else if minutes >? 0 then
    JS.Number_toString minutes ++ "m " ++ JS.Number_toString secs ++ "s"
  else
    JS.Number_toString secs ++ "s".

(* ====================================================================== *)
(** * Data model *)
(* ====================================================================== *)

Module Metrics.
Record t := {
  server_status : string;
  uptime_hours : Q;
  total_connections : Z;
  active_connections : Z;
  total_requests : Z;
  successful_requests : Z;
  failed_requests : Z;
  average_response_time : Z;
  tools_available : Z;
  redis_status : string;
  redis_latency : Z
}.
End Metrics.

Module Connection.
Record t := {
  id : string;
  connected_at : string;
  duration_seconds : Z;
  status : string;
  tools_used : list string
}.
End Connection.

Module Tool.
Record t := {
  name : string;
  description : string;
  call_count : Z;
  success_rate : Q;
  avg_response_time : Z
}.
End Tool.

Module LogEntry.
Record t := {
  timestamp : string;
  level : string;
  message : string
}.
End LogEntry.

(** What a fetch function hands to its caller: one of the four collections,
    or any other JSON document the server chose to send (kept as text). *)
Inductive Payload : Type :=
| PMetrics (m : Metrics.t)
| PConnections (l : list Connection.t)
| PTools (l : list Tool.t)
| PLogs (l : list LogEntry.t)
| PJson (text : string).

(** ** Mock data (used when the API is unavailable or demo mode is enabled) *)

Module MockData.

Definition metrics : Metrics.t := {|
  Metrics.server_status := "online";
  Metrics.uptime_hours := 24 # 1;
  Metrics.total_connections := 156;
  Metrics.active_connections := 3;
  Metrics.total_requests := 2843;
  Metrics.successful_requests := 2756;
  Metrics.failed_requests := 87;
  Metrics.average_response_time := 245;
  Metrics.tools_available := 12;
  Metrics.redis_status := "connected";
  Metrics.redis_latency := 2
|}.

Definition conn_001 : Connection.t := {|
  Connection.id := "conn_001";
  Connection.connected_at := "2025-11-01T10:15:32Z";
  Connection.duration_seconds := 3600;
  Connection.status := "connected";
  Connection.tools_used := ["tavily-search"; "web-scrape"]
|}.

Definition conn_002 : Connection.t := {|
  Connection.id := "conn_002";
  Connection.connected_at := "2025-11-01T10:30:15Z";
  Connection.duration_seconds := 1800;
  Connection.status := "disconnected";
  Connection.tools_used := ["tavily-search"]
|}.

Definition conn_003 : Connection.t := {|
  Connection.id := "conn_003";
  Connection.connected_at := "2025-11-01T10:45:22Z";
  Connection.duration_seconds := 900;
  Connection.status := "connected";
  Connection.tools_used := ["web-scrape"]
|}.

Definition connections : list Connection.t := [conn_001; conn_002; conn_003].

Definition tools : list Tool.t := [
  {| Tool.name := "tavily-search";
     Tool.description := "Web search using Tavily API";
     Tool.call_count := 1203;
     Tool.success_rate := 992 # 10;
     Tool.avg_response_time := 215 |};
  {| Tool.name := "web-scrape";
     Tool.description := "Extract content from web pages";
     Tool.call_count := 542;
     Tool.success_rate := 978 # 10;
     Tool.avg_response_time := 312 |}
].

Definition log_1 : LogEntry.t := {|
  LogEntry.timestamp := "2025-11-01T10:45:22Z";
  LogEntry.level := "INFO";
  LogEntry.message := "New connection established: conn_003"
|}.

Definition log_2 : LogEntry.t := {|
  LogEntry.timestamp := "2025-11-01T10:44:15Z";
  LogEntry.level := "INFO";
  LogEntry.message := "Tool execution: tavily-search (215ms)"
|}.

Definition log_3 : LogEntry.t := {|
  LogEntry.timestamp := "2025-11-01T10:43:01Z";
  LogEntry.level := "WARNING";
  LogEntry.message := "High response time detected: 1200ms"
|}.

Definition log_4 : LogEntry.t := {|
  LogEntry.timestamp := "2025-11-01T10:42:33Z";
  LogEntry.level := "INFO";
  LogEntry.message := "Redis ping successful (2ms)"
|}.

Definition logs : list LogEntry.t := [log_1; log_2; log_3; log_4].

End MockData.

(* ====================================================================== *)
(** * Application state and the world around it *)
(* ====================================================================== *)

(** [AppState].  The chart handles, the time of the last update and the
    cached collections are written by the refresh functions only and read by
    none of the functions below; they are left out. *)
Module AppState.
Record t := {
  apiEndpoint : string;
  refreshRate : Z;
  autoRefresh : bool;
  demoMode : bool;
  theme : string;
  currentSection : string;
  refreshInterval : option Z;   (* [null], or the handle of the timer *)
  serverStatus : string
}.

Definition initial : t := {|
  apiEndpoint := "http://localhost:8000";
  refreshRate := 5000;
  autoRefresh := true;
  demoMode := true;
  theme := "auto";
  currentSection := "dashboard";
  refreshInterval := None;
  serverStatus := "offline"
|}.

Definition set_apiEndpoint (v : string) (s : t) : t :=
  {| apiEndpoint := v; refreshRate := refreshRate s;
     autoRefresh := autoRefresh s; demoMode := demoMode s;
     theme := theme s; currentSection := currentSection s;
     refreshInterval := refreshInterval s; serverStatus := serverStatus s |}.

Definition set_refreshRate (v : Z) (s : t) : t :=
  {| apiEndpoint := apiEndpoint s; refreshRate := v;
     autoRefresh := autoRefresh s; demoMode := demoMode s;
     theme := theme s; currentSection := currentSection s;
     refreshInterval := refreshInterval s; serverStatus := serverStatus s |}.

Definition set_autoRefresh (v : bool) (s : t) : t :=
  {| apiEndpoint := apiEndpoint s; refreshRate := refreshRate s;
     autoRefresh := v; demoMode := demoMode s;
     theme := theme s; currentSection := currentSection s;
     refreshInterval := refreshInterval s; serverStatus := serverStatus s |}.

Definition set_demoMode (v : bool) (s : t) : t :=
  {| apiEndpoint := apiEndpoint s; refreshRate := refreshRate s;
     autoRefresh := autoRefresh s; demoMode := v;
     theme := theme s; currentSection := currentSection s;
     refreshInterval := refreshInterval s; serverStatus := serverStatus s |}.

Definition set_refreshInterval (v : option Z) (s : t) : t :=
  {| apiEndpoint := apiEndpoint s; refreshRate := refreshRate s;
     autoRefresh := autoRefresh s; demoMode := demoMode s;
     theme := theme s; currentSection := currentSection s;
     refreshInterval := v; serverStatus := serverStatus s |}.
End AppState.

(** ** The network *)

(** What [response.json()] settles to. *)
Inductive Body : Type :=
| JsonOk (data : Payload)
| JsonSyntaxError (msg : string).

(** What [fetch(url)] settles to: a rejection (the request never got an
    answer), or a response with its [ok] flag (status in 200..299) and body. *)
Inductive FetchOutcome : Type :=
| NetworkError (msg : string)
| Response (ok : bool) (body : Body).

Record Network := {
  respond : string -> FetchOutcome;    (* by URL *)
  latency : string -> Z                (* milliseconds until [fetch] settles *)
}.

(** ** Timers of the window *)

Record Timer := {
  timer_id : Z;
  period : Z;        (* the delay given to [setInterval] *)
  created : Z        (* the clock when it was set *)
}.

(** ** Console *)

Inductive ConsoleEntry : Type :=
| Warn (text : string) (e : JS.Error).

(** ** The world: everything a function of the file can read or write *)

Record World := {
  app : AppState.t;
  clock : Z;                     (* [Date.now()] *)
  requests : list string;        (* URLs fetched so far, oldest first *)
  console : list ConsoleEntry;   (* oldest first *)
  timers : list Timer;           (* the live interval timers *)
  next_timer_id : Z              (* the handle the next timer gets *)
}.

Definition with_app (a : AppState.t) (w : World) : World :=
  {| app := a; clock := clock w; requests := requests w;
     console := console w; timers := timers w;
     next_timer_id := next_timer_id w |}.

Definition initial_world : World :=
  {| app := AppState.initial; clock := 0; requests := []; console := [];
     timers := []; next_timer_id := 1 |}.

(** ** The monad of the embedding: state and exceptions *)

Definition M (A : Type) : Type := World -> JS.Completion A * World.

Definition ret {A} (a : A) : M A := fun w => (JS.Return a, w).

Definition throw {A} (e : JS.Error) : M A := fun w => (JS.Throw e, w).

Definition bind {A B} (m : M A) (k : A -> M B) : M B :=
  fun w =>
    match m w with
    | (JS.Return a, w') => k a w'
    | (JS.Throw e, w') => (JS.Throw e, w')
    end.

(** [try { body } catch (error) { handler }] *)
Definition try_catch {A} (body : M A) (handler : JS.Error -> M A) : M A :=
  fun w =>
    match body w with
    | (JS.Return a, w') => (JS.Return a, w')
    | (JS.Throw e, w') => handler e w'
    end.

Notation "x <- m ;; k" := (bind m (fun x => k))
  (at level 61, m at next level, right associativity).
Notation "m ;;; k" := (bind m (fun _ => k))
  (at level 61, right associativity).

Definition get_app : M AppState.t := fun w => (JS.Return (app w), w).

Definition put_app (a : AppState.t) : M unit :=
  fun w => (JS.Return tt, with_app a w).

(** [Date.now()] *)
Definition Date_now : M Z := fun w => (JS.Return (clock w), w).

(** [console.warn(text, error)] *)
Definition console_warn (text : string) (e : JS.Error) : M unit :=
  fun w =>
    (JS.Return tt,
     {| app := app w; clock := clock w; requests := requests w;
        console := (console w ++ [Warn text e])%list; timers := timers w;
        next_timer_id := next_timer_id w |}).

Section Api.

Variable net : Network.

(** [await fetch(url)]: the request is issued, time passes, and the promise
    settles to a response or rejects. *)
Definition fetch (url : string) : M (bool * Body) :=
  fun w =>
    let w' := {| app := app w; clock := clock w + latency net url;
                 requests := (requests w ++ [url])%list; console := console w;
                 timers := timers w; next_timer_id := next_timer_id w |} in
    match respond net url with
    | NetworkError msg => (JS.Throw {| JS.message := msg |}, w')
    | Response ok body => (JS.Return (ok, body), w')
    end.

(** [await response.json()] *)
Definition response_json (response : bool * Body) : M Payload :=
  match snd response with
  | JsonOk data => ret data
  | JsonSyntaxError msg => throw {| JS.message := msg |}
  end.

Definition response_ok (response : bool * Body) : bool := fst response.

(* ==================================================================== *)
(** * API functions *)
(* ==================================================================== *)

Definition fetchMetrics : M Payload :=
  st <- get_app ;;
  if AppState.demoMode st then ret (PMetrics MockData.metrics)
  else
    try_catch
      (response <- fetch (AppState.apiEndpoint st ++ "/api/metrics") ;;
       if negb (response_ok response)
       then throw {| JS.message := "API request failed" |}
       else response_json response)
      (fun error =>
         console_warn "API call failed, using mock data:" error ;;;
         ret (PMetrics MockData.metrics)).

Definition fetchConnections : M Payload :=
  st <- get_app ;;
  if AppState.demoMode st then ret (PConnections MockData.connections)
  else
    try_catch
      (response <- fetch (AppState.apiEndpoint st ++ "/api/connections") ;;
       if negb (response_ok response)
       then throw {| JS.message := "API request failed" |}
       else response_json response)
      (fun error =>
         console_warn "API call failed, using mock data:" error ;;;
         ret (PConnections MockData.connections)).

Definition fetchTools : M Payload :=
  st <- get_app ;;
  if AppState.demoMode st then ret (PTools MockData.tools)
  else
    try_catch
      (response <- fetch (AppState.apiEndpoint st ++ "/api/tools") ;;
       if negb (response_ok response)
       then throw {| JS.message := "API request failed" |}
       else response_json response)
      (fun error =>
         console_warn "API call failed, using mock data:" error ;;;
         ret (PTools MockData.tools)).

Definition fetchLogs : M Payload :=
  st <- get_app ;;
  if AppState.demoMode st then ret (PLogs MockData.logs)
  else
    try_catch
      (response <- fetch (AppState.apiEndpoint st ++ "/api/logs") ;;
       if negb (response_ok response)
       then throw {| JS.message := "API request failed" |}
       else response_json response)
      (fun error =>
         console_warn "API call failed, using mock data:" error ;;;
         ret (PLogs MockData.logs)).

(** The result object of [checkHealth]; an absent property is [None]. *)
Record HealthResult := {
  success : bool;
  responseTime : option Z;
  data : option Payload;
  error : option string
}.

Definition checkHealth : M HealthResult :=
  try_catch
    (startTime <- Date_now ;;
     st <- get_app ;;
     response <- fetch (AppState.apiEndpoint st ++ "/health") ;;
     now <- Date_now ;;
     let responseTime := now - startTime in
     if response_ok response then
       data <- response_json response ;;
       ret {| success := true; responseTime := Some responseTime;
              data := Some data; error := None |}
     else
       ret {| success := false; responseTime := None; data := None;
              error := Some "Health check failed" |})
    (fun error =>
       ret {| success := false; responseTime := None; data := None;
              error := Some (JS.message error) |}).

End Api.

Definition exec {A} (m : M A) (w : World) : World := snd (m w).
Definition result {A} (m : M A) (w : World) : JS.Completion A := fst (m w).

(* ====================================================================== *)
(** * Filter/sort pipeline: what each view hands to its renderer *)
(* ====================================================================== *)

(** [updateConnectionsTable]: the value of [filteredConnections] for the
    value [filter] of the [connectionFilter] select. *)
Definition filteredConnections
    (filter : string) (connections : list Connection.t) : list Connection.t :=
  let filteredConnections := connections in
  if negb (filter =? "all") then
    List.filter (fun conn => Connection.status conn =? filter) connections
  else filteredConnections.

Section ToolsSort.

(** [String.prototype.localeCompare]: negative, zero or positive.  The order
    is the host's collation; the language only asks that it be a
    consistent comparator on strings. *)
Variable localeCompare : string -> string -> Z.

Definition by_calls (a b : Tool.t) : Q :=
  inject_Z (Tool.call_count b - Tool.call_count a).

Definition by_name (a b : Tool.t) : Q :=
  inject_Z (localeCompare (Tool.name a) (Tool.name b)).

Definition by_success (a b : Tool.t) : Q :=
  (Tool.success_rate b - Tool.success_rate a)%Q.

(** [updateToolsGrid]: the value of [sortedTools] for the value [sortBy] of
    the [toolsSortBy] select. *)
Definition sortedTools (sortBy : string) (tools : list Tool.t) : list Tool.t :=
  let sortedTools := tools in
  if sortBy =? "calls" then JS.Array_sort by_calls sortedTools
  else if sortBy =? "name" then JS.Array_sort by_name sortedTools
  else if sortBy =? "success" then JS.Array_sort by_success sortedTools
  else sortedTools.

End ToolsSort.

Section LogsFilter.

(** [String.prototype.toLowerCase] of the host. *)
Variable toLowerCase : string -> string.

(** [updateLogsContainer]: the value of [filteredLogs] for the values of
    the [logSearch] input and of the [logLevelFilter] select. *)
Definition filteredLogs
    (logSearch levelFilter : string) (logs : list LogEntry.t) : list LogEntry.t :=
  let searchTerm := toLowerCase logSearch in
  let filteredLogs := logs in
  let filteredLogs :=
    if negb (levelFilter =? "all") then
      List.filter (fun log => LogEntry.level log =? levelFilter) filteredLogs
    else filteredLogs in
  let filteredLogs :=
    if JS.truthy_string searchTerm then
      List.filter
        (fun log => JS.includes (toLowerCase (LogEntry.message log)) searchTerm)
        filteredLogs
    else filteredLogs in
  filteredLogs.

End LogsFilter.

(** ** The same functions on array objects

    An array is an object: two variables may hold the same one, and
    [sort] rewrites the array it is called on.  The store maps each array
    object to its contents; [filter] and the spread [[...a]] allocate, [sort]
    writes in place. *)

Module Store.
Section Arrays.
Variable A : Type.

Definition ArrayRef := nat.
Definition t := list (list A).

Definition read (h : t) (r : ArrayRef) : option (list A) := nth_error h r.

Definition alloc (l : list A) (h : t) : ArrayRef * t :=
  (List.length h, (h ++ [l])%list).

Fixpoint write (r : ArrayRef) (l : list A) (h : t) : t :=
  match h, r with
  | [], _ => []
  | _ :: h', O => l :: h'
  | x :: h', S r' => x :: write r' l h'
  end.

(** Every array of [h] is an array of [h'] with the same contents. *)
Definition extends (h h' : t) : Prop :=
  forall r l, read h r = Some l -> read h' r = Some l.

(** [r] is no array of [h]. *)
Definition fresh (h : t) (r : ArrayRef) : Prop := read h r = None.

(** [a.filter(p)] *)
Definition Array_filter (p : A -> bool) (a : ArrayRef) (h : t)
  : option (ArrayRef * t) :=
  match read h a with
  | Some l => Some (alloc (List.filter p l) h)
  | None => None
  end.

(** [[...a]] *)
Definition Array_spread (a : ArrayRef) (h : t) : option (ArrayRef * t) :=
  match read h a with
  | Some l => Some (alloc l h)
  | None => None
  end.

(** [a.sort(comparefn)] *)
Definition Array_sort (comparefn : A -> A -> Q) (a : ArrayRef) (h : t)
  : option (ArrayRef * t) :=
  match read h a with
  | Some l => Some (a, write a (JS.Array_sort comparefn l) h)
  | None => None
  end.
End Arrays.
End Store.

Definition updateConnectionsTable
    (filter : string) (connections : Store.ArrayRef) (h : Store.t Connection.t)
  : option (Store.ArrayRef * Store.t Connection.t) :=
  let filteredConnections := connections in
  if negb (filter =? "all") then
    Store.Array_filter (fun conn => Connection.status conn =? filter) connections h
  else Some (filteredConnections, h).

Definition updateToolsGrid
    (localeCompare : string -> string -> Z)
    (sortBy : string) (tools : Store.ArrayRef) (h : Store.t Tool.t)
  : option (Store.ArrayRef * Store.t Tool.t) :=
  match Store.Array_spread tools h with
  | None => None
  | Some (sortedTools, h) =>
      if sortBy =? "calls" then Store.Array_sort by_calls sortedTools h
      else if sortBy =? "name" then
        Store.Array_sort (by_name localeCompare) sortedTools h
      else if sortBy =? "success" then Store.Array_sort by_success sortedTools h
      else Some (sortedTools, h)
  end.

Definition updateLogsContainer
    (toLowerCase : string -> string)
    (logSearch levelFilter : string) (logs : Store.ArrayRef)
    (h : Store.t LogEntry.t)
  : option (Store.ArrayRef * Store.t LogEntry.t) :=
  let searchTerm := toLowerCase logSearch in
  let filteredLogs := logs in
  match
    (if negb (levelFilter =? "all") then
       Store.Array_filter (fun log => LogEntry.level log =? levelFilter)
         filteredLogs h
     else Some (filteredLogs, h))
  with
  | None => None
  | Some (filteredLogs, h) =>
      if JS.truthy_string searchTerm then
        Store.Array_filter
          (fun log => JS.includes (toLowerCase (LogEntry.message log)) searchTerm)
          filteredLogs h
      else Some (filteredLogs, h)
  end.

(* ====================================================================== *)
(** * Auto-refresh scheduler *)
(* ====================================================================== *)

(** Truthiness of [AppState.refreshInterval]: [null] and [0] are falsy. *)
Definition truthy_handle (handle : option Z) : bool :=
  match handle with
  | None => false
  | Some id => negb (id =? 0)%Z
  end.

(** [clearInterval(handle)]: the timer of that handle, if any, is gone. *)
Definition clearInterval (handle : option Z) : M unit :=
  fun w =>
    (JS.Return tt,
     {| app := app w; clock := clock w; requests := requests w;
        console := console w;
        timers :=
          match handle with
          | None => timers w
          | Some id => List.filter (fun t => negb (timer_id t =? id)%Z) (timers w)
          end;
        next_timer_id := next_timer_id w |}).

(** [setInterval(() => { refreshCurrentSection(); }, delay)]: a new live timer
    under a handle no timer had before; the only callback a timer of this
    page ever has is the dispatcher. *)
Definition setInterval (delay : Z) : M Z :=
  fun w =>
    (JS.Return (next_timer_id w),
     {| app := app w; clock := clock w; requests := requests w;
        console := console w;
        timers := (timers w ++ [{| timer_id := next_timer_id w;
                                   period := delay;
                                   created := clock w |}])%list;
        next_timer_id := next_timer_id w + 1 |}).

Definition startAutoRefresh : M unit :=
  st <- get_app ;;
  (if truthy_handle (AppState.refreshInterval st)
   then clearInterval (AppState.refreshInterval st)
   else ret tt) ;;;
  st <- get_app ;;
  if AppState.autoRefresh st then
    id <- setInterval (AppState.refreshRate st) ;;
    st <- get_app ;;
    put_app (AppState.set_refreshInterval (Some id) st)
  else ret tt.

Definition stopAutoRefresh : M unit :=
  st <- get_app ;;
  if truthy_handle (AppState.refreshInterval st) then
    clearInterval (AppState.refreshInterval st) ;;;
    st <- get_app ;;
    put_app (AppState.set_refreshInterval None st)
  else ret tt.

(** The [change] handler of [refreshRateSelect], with the parsed value. *)
Definition on_refreshRate_change (value : Z) : M unit :=
  st <- get_app ;;
  put_app (AppState.set_refreshRate value st) ;;;
  st <- get_app ;;
  if AppState.autoRefresh st then startAutoRefresh else ret tt.

(** The [change] handler of [autoRefreshToggle]. *)
Definition on_autoRefresh_change (checked : bool) : M unit :=
  st <- get_app ;;
  put_app (AppState.set_autoRefresh checked st) ;;;
  st <- get_app ;;
  if AppState.autoRefresh st then startAutoRefresh else stopAutoRefresh.

(** How often a timer has fired by time [T]: once per full period since it
    was set. *)
Definition fired_by (t : Timer) (T : Z) : Z :=
  if period t >? 0 then Z.max 0 ((T - created t) / period t) else 0.

(** Calls of the dispatcher in the window from [a] (excluded) to [b]
    (included): one per firing of a live timer. *)
Definition dispatcher_calls (w : World) (a b : Z) : Z :=
  fold_right (fun t n => fired_by t b - fired_by t a + n) 0 (timers w).

(** One step of the page, as far as the scheduler can tell: a call of
    [startAutoRefresh] or [stopAutoRefresh], one of the two settings
    handlers, or anything else, which neither sets nor clears a timer nor
    writes [AppState.refreshInterval]. *)
Inductive sched_step : World -> World -> Prop :=
| step_start w : sched_step w (exec startAutoRefresh w)
| step_stop w : sched_step w (exec stopAutoRefresh w)
| step_rate w value : sched_step w (exec (on_refreshRate_change value) w)
| step_toggle w checked : sched_step w (exec (on_autoRefresh_change checked) w)
| step_other w w' :
    timers w' = timers w ->
    next_timer_id w' = next_timer_id w ->
    AppState.refreshInterval (app w') = AppState.refreshInterval (app w) ->
    sched_step w w'.

Inductive reachable : World -> Prop :=
| reach_init : reachable initial_world
| reach_step w w' : reachable w -> sched_step w w' -> reachable w'.

(* ====================================================================== *)
(** * Settings: the test-connection button *)
(* ====================================================================== *)

(** The [click] handler of [testConnection], for the value of the
    [apiEndpointInput] field; it returns the text it leaves in [testResult]. *)
Definition on_testConnection_click (net : Network) (apiEndpointInput : string)
  : M string :=
  st <- get_app ;;
  let endpoint := JS.or_string apiEndpointInput (AppState.apiEndpoint st) in
  let originalEndpoint := AppState.apiEndpoint st in
  put_app (AppState.set_apiEndpoint endpoint st) ;;;
  result <- checkHealth net ;;
  if success result then
    ret ("Connection successful! Response time: "
         ++ match responseTime result with
            | Some t => JS.Number_toString t
            | None => "undefined"
            end ++ "ms")
  else
    st <- get_app ;;
    put_app (AppState.set_apiEndpoint originalEndpoint st) ;;;
    ret ("Connection failed: "
         ++ match error result with
            | Some msg => msg
            | None => "undefined"
            end).

(** ** The four data resources *)

Inductive ResourceKind : Type := metrics | connections | tools | logs.

Definition fetchResource (net : Network) (kind : ResourceKind) : M Payload :=
  match kind with
  | metrics => fetchMetrics net
  | connections => fetchConnections net
  | tools => fetchTools net
  | logs => fetchLogs net
  end.

Definition mock_of (kind : ResourceKind) : Payload :=
  match kind with
  | metrics => PMetrics MockData.metrics
  | connections => PConnections MockData.connections
  | tools => PTools MockData.tools
  | logs => PLogs MockData.logs
  end.

Definition path_of (kind : ResourceKind) : string :=
  match kind with
  | metrics => "/api/metrics"
  | connections => "/api/connections"
  | tools => "/api/tools"
  | logs => "/api/logs"
  end.

(* ====================================================================== *)
(** * Vocabulary of the specification *)
(* ====================================================================== *)

(** A request failed: it was rejected (transport failure), or the response
    came with a non-success status. *)
Definition request_failed (o : FetchOutcome) : bool :=
  match o with
  | NetworkError _ => true
  | Response ok _ => negb ok
  end.

(** The URL a data resource is fetched from. *)
Definition resource_url (w : World) (kind : ResourceKind) : string :=
  AppState.apiEndpoint (app w) ++ path_of kind.

(** The URL of the health probe. *)
Definition health_url (w : World) : string :=
  AppState.apiEndpoint (app w) ++ "/health".

Definition health_failure (msg : string) : HealthResult :=
  {| success := false; responseTime := None; data := None; error := Some msg |}.

(** ** Sample inputs *)

(** The page as it starts, with demo mode switched off. *)
Definition live_world : World :=
  with_app (AppState.set_demoMode false AppState.initial) initial_world.

(** No server is listening: every request is rejected after 30 ms. *)
Definition offline_net : Network :=
  {| respond := fun _ => NetworkError "Failed to fetch";
     latency := fun _ => 30 |}.

(** A server that answers every request with status 500 after 12 ms. *)
Definition failing_net : Network :=
  {| respond := fun _ => Response false (JsonSyntaxError "Unexpected end of JSON input");
     latency := fun _ => 12 |}.

(** A server whose health endpoint answers 200 with a JSON document after
    8 ms. *)
Definition healthy_net : Network :=
  {| respond := fun _ => Response true (JsonOk (PJson "{status: ok}"));
     latency := fun _ => 8 |}.

(** A server whose health endpoint answers 200 with the plain text [OK]. *)
Definition plain_text_net : Network :=
  {| respond := fun _ =>
       Response true (JsonSyntaxError "Unexpected token 'O', OK is not valid JSON");
     latency := fun _ => 8 |}.


(** The world when the probe of a click starts: the candidate is in place. *)
Definition probing_world (apiEndpointInput : string) (w : World) : World :=
  with_app
    (AppState.set_apiEndpoint
       (JS.or_string apiEndpointInput (AppState.apiEndpoint (app w))) (app w))
    w.


(** The scheduler's invariant: handles are positive, and a live timer, if
    there is one, is the only one and the one [AppState.refreshInterval]
    holds. *)
Definition sched_inv (w : World) : Prop :=
  0 < next_timer_id w
  /\ (timers w = []
      \/ exists t, timers w = [t]
           /\ AppState.refreshInterval (app w) = Some (timer_id t)
           /\ 0 < timer_id t < next_timer_id w).

(** The timer [startAutoRefresh] sets in world [w]. *)
Definition fresh_timer (w : World) : Timer :=
  {| timer_id := next_timer_id w;
     period := AppState.refreshRate (app w);
     created := clock w |}.

(** The two tools of the sorting example; the fields it leaves out are
    blank. *)
Definition tool_b5 : Tool.t :=
  {| Tool.name := "b"; Tool.description := ""; Tool.call_count := 5;
     Tool.success_rate := 0; Tool.avg_response_time := 0 |}.

Definition tool_a10 : Tool.t :=
  {| Tool.name := "a"; Tool.description := ""; Tool.call_count := 10;
     Tool.success_rate := 0; Tool.avg_response_time := 0 |}.

(** A host whose collation is the order of the code units. *)
Definition codeUnitCompare (a b : string) : Z :=
  match String.compare a b with
  | Lt => -1
  | Eq => 0
  | Gt => 1
  end.

(** ** The pipeline as the specification words it *)

(** A connection is kept when the filter is [all] or is its status. *)
Definition spec_connection_kept (filter : string) (conn : Connection.t) : bool :=
  (filter =? "all") || (Connection.status conn =? filter).

(** A log entry passes the level filter when the filter is [all] or is its
    level. *)
Definition spec_level_matches (levelFilter : string) (log : LogEntry.t) : bool :=
  (levelFilter =? "all") || (LogEntry.level log =? levelFilter).

(** A message contains the search text when case is ignored: lower-cased, the
    one includes the other. *)
Definition spec_contains_ignoring_case
    (toLowerCase : string -> string) (text search : string) : bool :=
  JS.includes (toLowerCase text) (toLowerCase search).

Definition spec_log_kept
    (toLowerCase : string -> string) (logSearch levelFilter : string)
    (log : LogEntry.t) : bool :=
  spec_level_matches levelFilter log
  && spec_contains_ignoring_case toLowerCase (LogEntry.message log) logSearch.

(** A store with the sample collections, each the only array. *)
Definition connections_store : Store.t Connection.t := [MockData.connections].
Definition tools_store : Store.t Tool.t := [MockData.tools].
Definition logs_store : Store.t LogEntry.t := [MockData.logs].

(* ====================================================================== *)
(** * Settings: the test-connection button, around its [await] *)
(* ====================================================================== *)

(** The [click] handler of [testConnection] up to the call of [checkHealth]:
    it returns the value of [originalEndpoint]. *)
Definition testConnection_before_await (apiEndpointInput : string) : M string :=
  st <- get_app ;;
  let endpoint := JS.or_string apiEndpointInput (AppState.apiEndpoint st) in
  let originalEndpoint := AppState.apiEndpoint st in
  put_app (AppState.set_apiEndpoint endpoint st) ;;;
  ret originalEndpoint.

(** The same handler from the point where [checkHealth] has settled to
    [result]. *)
Definition testConnection_after_await
    (originalEndpoint : string) (result : HealthResult) : M string :=
  if success result then
    ret ("Connection successful! Response time: "
         ++ match responseTime result with
            | Some t => JS.Number_toString t
            | None => "undefined"
            end ++ "ms")
  else
    st <- get_app ;;
    put_app (AppState.set_apiEndpoint originalEndpoint st) ;;;
    ret ("Connection failed: "
         ++ match error result with
            | Some msg => msg
            | None => "undefined"
            end).

(* ====================================================================== *)
(** * Auto-refresh scheduler: the page in use *)
(* ====================================================================== *)

(** One step of the page in use: one of the two settings handlers, or
    anything else, which touches neither the timers nor the three scheduler
    fields of [AppState]. *)
Inductive ui_step : World -> World -> Prop :=
| ui_rate w value : ui_step w (exec (on_refreshRate_change value) w)
| ui_toggle w checked : ui_step w (exec (on_autoRefresh_change checked) w)
| ui_other w w' :
    timers w' = timers w ->
    next_timer_id w' = next_timer_id w ->
    AppState.refreshInterval (app w') = AppState.refreshInterval (app w) ->
    AppState.autoRefresh (app w') = AppState.autoRefresh (app w) ->
    AppState.refreshRate (app w') = AppState.refreshRate (app w) ->
    ui_step w w'.

(** The states of the page from the call of [startAutoRefresh] that ends
    [initializeApp] on. *)
Inductive ui_reachable : World -> Prop :=
| ui_started w : reachable w -> ui_reachable (exec startAutoRefresh w)
| ui_next w w' : ui_reachable w -> ui_step w w' -> ui_reachable w'.

(** A timer is live exactly when auto-refresh is on, and its period is the
    configured refresh rate. *)
Definition cadence_inv (w : World) : Prop :=
  if AppState.autoRefresh (app w)
  then exists t, timers w = [t]
         /\ period t = AppState.refreshRate (app w)
         /\ AppState.refreshInterval (app w) = Some (timer_id t)
  else timers w = [].

(* ====================================================================== *)
(** * The page: caches, theme, render sinks and the refresh dispatcher *)
(* ====================================================================== *)

Definition set_currentSection (v : string) (s : AppState.t) : AppState.t :=
  {| AppState.apiEndpoint := AppState.apiEndpoint s;
     AppState.refreshRate := AppState.refreshRate s;
     AppState.autoRefresh := AppState.autoRefresh s;
     AppState.demoMode := AppState.demoMode s;
     AppState.theme := AppState.theme s;
     AppState.currentSection := v;
     AppState.refreshInterval := AppState.refreshInterval s;
     AppState.serverStatus := AppState.serverStatus s |}.

Definition set_theme (v : string) (s : AppState.t) : AppState.t :=
  {| AppState.apiEndpoint := AppState.apiEndpoint s;
     AppState.refreshRate := AppState.refreshRate s;
     AppState.autoRefresh := AppState.autoRefresh s;
     AppState.demoMode := AppState.demoMode s;
     AppState.theme := v;
     AppState.currentSection := AppState.currentSection s;
     AppState.refreshInterval := AppState.refreshInterval s;
     AppState.serverStatus := AppState.serverStatus s |}.

Definition set_serverStatus (v : string) (s : AppState.t) : AppState.t :=
  {| AppState.apiEndpoint := AppState.apiEndpoint s;
     AppState.refreshRate := AppState.refreshRate s;
     AppState.autoRefresh := AppState.autoRefresh s;
     AppState.demoMode := AppState.demoMode s;
     AppState.theme := AppState.theme s;
     AppState.currentSection := AppState.currentSection s;
     AppState.refreshInterval := AppState.refreshInterval s;
     AppState.serverStatus := v |}.

(** The fields of [AppState] that hold fetched data, and the time of the
    last update. *)
Record Cache := {
  metricsData : option Payload;      (* [null] until the dashboard is refreshed *)
  connectionsData : Payload;
  toolsData : Payload;
  logsData : Payload;
  lastUpdate : option Z              (* [null], or the clock of the last update *)
}.

Definition initial_cache : Cache :=
  {| metricsData := None;
     connectionsData := PConnections [];
     toolsData := PTools [];
     logsData := PLogs [];
     lastUpdate := None |}.

(** An entry of [console.error]. *)
Inductive ConsoleError : Type :=
| LoggedError (text : string) (e : JS.Error).

Module Page.
Section WithDom.

(** The document with its elements and the charts.  The code reaches it
    through the DOM and Chart.js only; it stays opaque here. *)
Variable Dom : Type.

Record t := {
  world : World;
  cache : Cache;
  dataTheme : option string;      (* the [data-theme] attribute of the root element *)
  errors : list ConsoleError;     (* [console.error], oldest first *)
  dom : Dom
}.

Definition with_world (w : World) (pg : t) : t :=
  {| world := w; cache := cache pg; dataTheme := dataTheme pg;
     errors := errors pg; dom := dom pg |}.

Definition with_cache (c : Cache) (pg : t) : t :=
  {| world := world pg; cache := c; dataTheme := dataTheme pg;
     errors := errors pg; dom := dom pg |}.

Definition with_dataTheme (a : option string) (pg : t) : t :=
  {| world := world pg; cache := cache pg; dataTheme := a;
     errors := errors pg; dom := dom pg |}.

(** The monad of the page: state and exceptions, as [M]. *)
Definition PM (A : Type) : Type := t -> JS.Completion A * t.

Definition pret {A} (a : A) : PM A := fun pg => (JS.Return a, pg).

Definition pbind {A B} (m : PM A) (k : A -> PM B) : PM B :=
  fun pg =>
    match m pg with
    | (JS.Return a, pg') => k a pg'
    | (JS.Throw e, pg') => (JS.Throw e, pg')
    end.

Definition ptry_catch {A} (body : PM A) (handler : JS.Error -> PM A) : PM A :=
  fun pg =>
    match body pg with
    | (JS.Return a, pg') => (JS.Return a, pg')
    | (JS.Throw e, pg') => handler e pg'
    end.

(** A function of the world, run in the page. *)
Definition lift {A} (m : M A) : PM A :=
  fun pg => let (c, w) := m (world pg) in (c, with_world w pg).

Notation "x <~ m ;; k" := (pbind m (fun x => k))
  (at level 61, m at next level, right associativity).
Notation "m ;;~ k" := (pbind m (fun _ => k))
  (at level 61, right associativity).

Definition get_cache : PM Cache := fun pg => (JS.Return (cache pg), pg).

Definition put_cache (c : Cache) : PM unit :=
  fun pg => (JS.Return tt, with_cache c pg).

(** [console.error(text, error)] *)
Definition console_error (text : string) (e : JS.Error) : PM unit :=
  fun pg =>
    (JS.Return tt,
     {| world := world pg; cache := cache pg; dataTheme := dataTheme pg;
        errors := (errors pg ++ [LoggedError text e])%list; dom := dom pg |}).

(** ** Render sinks

    The part of a function that talks to the DOM or to a chart.  It may read
    the whole page; it writes the document, and [AppState.serverStatus]
    (which [updateDashboardMetrics] sets through [updateServerStatus]); it
    returns or throws (an element that is missing, a payload of another
    shape than the one it renders). *)
Definition Sink (A : Type) : Type := A -> t -> JS.Completion unit * (Dom * string).

Definition run_sink {A} (sink : Sink A) (a : A) : PM unit :=
  fun pg =>
    let '(c, (d, status)) := sink a pg in
    (c,
     {| world := with_app (set_serverStatus status (app (world pg))) (world pg);
        cache := cache pg; dataTheme := dataTheme pg; errors := errors pg;
        dom := d |}).

Record Sinks := {
  updateDashboardMetrics : Sink Payload;
  updateCharts : Sink Payload;
  updateHealthStatus : Sink Payload;
  updateConnectionsTable : Sink Payload;
  updateToolsGrid : Sink Payload;
  updateLogsContainer : Sink Payload;
  showLastUpdate : Sink Z;           (* the text of [lastUpdate] *)
  showSection : Sink string;         (* the class changes of [switchSection] *)
  setupEventListeners : Sink unit;
  showApiEndpoint : Sink string;     (* the value of [apiEndpointInput] *)
  initializeCharts : Sink unit
}.

Variable net : Network.
Variable sinks : Sinks.

Definition updateLastUpdate : PM unit :=
  now <~ lift Date_now ;;
  c <~ get_cache ;;
  put_cache {| metricsData := metricsData c;
               connectionsData := connectionsData c;
               toolsData := toolsData c;
               logsData := logsData c;
               lastUpdate := Some now |} ;;~
  run_sink (showLastUpdate sinks) now.

(* ==================================================================== *)
(** ** Data refresh functions *)
(* ==================================================================== *)

Definition refreshDashboard : PM unit :=
  ptry_catch
    (metrics <~ lift (fetchMetrics net) ;;
     c <~ get_cache ;;
     put_cache {| metricsData := Some metrics;
                  connectionsData := connectionsData c;
                  toolsData := toolsData c;
                  logsData := logsData c;
                  lastUpdate := lastUpdate c |} ;;~
     run_sink (updateDashboardMetrics sinks) metrics ;;~
     run_sink (updateCharts sinks) metrics ;;~
     updateLastUpdate)
    (fun error => console_error "Error refreshing dashboard:" error).

Definition refreshHealth : PM unit :=
  ptry_catch
    (metrics <~ lift (fetchMetrics net) ;;
     run_sink (updateHealthStatus sinks) metrics ;;~
     updateLastUpdate)
    (fun error => console_error "Error refreshing health:" error).

Definition refreshConnections : PM unit :=
  ptry_catch
    (connections <~ lift (fetchConnections net) ;;
     c <~ get_cache ;;
     put_cache {| metricsData := metricsData c;
                  connectionsData := connections;
                  toolsData := toolsData c;
                  logsData := logsData c;
                  lastUpdate := lastUpdate c |} ;;~
     run_sink (updateConnectionsTable sinks) connections ;;~
     updateLastUpdate)
    (fun error => console_error "Error refreshing connections:" error).

Definition refreshTools : PM unit :=
  ptry_catch
    (tools <~ lift (fetchTools net) ;;
     c <~ get_cache ;;
     put_cache {| metricsData := metricsData c;
                  connectionsData := connectionsData c;
                  toolsData := tools;
                  logsData := logsData c;
                  lastUpdate := lastUpdate c |} ;;~
     run_sink (updateToolsGrid sinks) tools ;;~
     updateLastUpdate)
    (fun error => console_error "Error refreshing tools:" error).

Definition refreshLogs : PM unit :=
  ptry_catch
    (logs <~ lift (fetchLogs net) ;;
     c <~ get_cache ;;
     put_cache {| metricsData := metricsData c;
                  connectionsData := connectionsData c;
                  toolsData := toolsData c;
                  logsData := logs;
                  lastUpdate := lastUpdate c |} ;;~
     run_sink (updateLogsContainer sinks) logs ;;~
     updateLastUpdate)
    (fun error => console_error "Error refreshing logs:" error).

Definition refreshCurrentSection : PM unit :=
  st <~ lift get_app ;;
  let currentSection := AppState.currentSection st in
  if currentSection =? "dashboard" then refreshDashboard
  else if currentSection =? "health" then refreshHealth
  else if currentSection =? "connections" then refreshConnections
  else if currentSection =? "tools" then refreshTools
  else if currentSection =? "logs" then refreshLogs
  else pret tt.

(* ==================================================================== *)
(** ** Navigation *)
(* ==================================================================== *)

Definition switchSection (sectionName : string) : PM unit :=
  run_sink (showSection sinks) sectionName ;;~
  st <~ lift get_app ;;
  lift (put_app (set_currentSection sectionName st)) ;;~
  refreshCurrentSection.

(* ==================================================================== *)
(** ** Theme *)
(* ==================================================================== *)

Definition applyTheme (theme : string) : PM unit :=
  (fun pg =>
     (JS.Return tt,
      with_dataTheme (if theme =? "auto" then None else Some theme) pg)) ;;~
  st <~ lift get_app ;;
  lift (put_app (set_theme theme st)).

(** [!currentTheme || currentTheme === 'dark'] *)
Definition toggles_to_light (currentTheme : option string) : bool :=
  match currentTheme with
  | None => true
  | Some v => negb (JS.truthy_string v) || (v =? "dark")
  end.

Definition toggleTheme : PM unit :=
  fun pg =>
    let currentTheme := dataTheme pg in
    if toggles_to_light currentTheme
    then applyTheme "light" pg
    else applyTheme "dark" pg.

(* ==================================================================== *)
(** ** Event listeners *)
(* ==================================================================== *)

(** [change] of [connectionFilter] *)
Definition on_connectionFilter_change : PM unit :=
  c <~ get_cache ;;
  run_sink (updateConnectionsTable sinks) (connectionsData c).

(** [change] of [toolsSortBy] *)
Definition on_toolsSortBy_change : PM unit :=
  c <~ get_cache ;;
  run_sink (updateToolsGrid sinks) (toolsData c).

(** [input] of [logSearch] and [change] of [logLevelFilter] *)
Definition on_logFilter_change : PM unit :=
  c <~ get_cache ;;
  run_sink (updateLogsContainer sinks) (logsData c).

(** [click] of [clearLogs] *)
Definition on_clearLogs_click : PM unit :=
  c <~ get_cache ;;
  put_cache {| metricsData := metricsData c;
               connectionsData := connectionsData c;
               toolsData := toolsData c;
               logsData := PLogs [];
               lastUpdate := lastUpdate c |} ;;~
  run_sink (updateLogsContainer sinks) (PLogs []).

(** [change] of [demoModeToggle] *)
Definition on_demoMode_change (checked : bool) : PM unit :=
  st <~ lift get_app ;;
  lift (put_app (AppState.set_demoMode checked st)) ;;~
  refreshCurrentSection.

(** [change] of [themeSelect] *)
Definition on_themeSelect_change (value : string) : PM unit :=
  applyTheme value.

(* ==================================================================== *)
(** ** Application initialization *)
(* ==================================================================== *)

Definition initializeApp : PM unit :=
  run_sink (setupEventListeners sinks) tt ;;~
  st <~ lift get_app ;;
  run_sink (showApiEndpoint sinks) (AppState.apiEndpoint st) ;;~
  run_sink (initializeCharts sinks) tt ;;~
  refreshDashboard ;;~
  lift startAutoRefresh.

(** One event of the theme: the toggle button, or the select with the value
    chosen. *)
Inductive theme_step : t -> t -> Prop :=
| theme_toggle pg : theme_step pg (snd (toggleTheme pg))
| theme_select pg value : theme_step pg (snd (on_themeSelect_change value pg)).

(** [AppState.theme] and the [data-theme] attribute say the same. *)
Definition theme_agrees (pg : t) : Prop :=
  match dataTheme pg with
  | None => AppState.theme (app (world pg)) = "auto"
  | Some v => AppState.theme (app (world pg)) = v /\ v <> "auto"
  end.

End WithDom.
End Page.

(** ** Sample pages *)

(** Sinks that render without fault and leave the server status alone. *)
Definition quiet_sink (A : Type) : Page.Sink unit A :=
  fun _ pg => (JS.Return tt, (tt, AppState.serverStatus (app (Page.world pg)))).

(** A sink that throws: the element it writes to is missing. *)
Definition broken_sink (A : Type) : Page.Sink unit A :=
  fun _ pg =>
    (JS.Throw {| JS.message := "Cannot set properties of null" |},
     (tt, AppState.serverStatus (app (Page.world pg)))).

Definition quiet_sinks : Page.Sinks unit :=
  {| Page.updateDashboardMetrics := @quiet_sink Payload;
     Page.updateCharts := @quiet_sink Payload;
     Page.updateHealthStatus := @quiet_sink Payload;
     Page.updateConnectionsTable := @quiet_sink Payload;
     Page.updateToolsGrid := @quiet_sink Payload;
     Page.updateLogsContainer := @quiet_sink Payload;
     Page.showLastUpdate := @quiet_sink Z;
     Page.showSection := @quiet_sink string;
     Page.setupEventListeners := @quiet_sink unit;
     Page.showApiEndpoint := @quiet_sink string;
     Page.initializeCharts := @quiet_sink unit |}.

(** The same, but the connections table and the chart set-up fail. *)
Definition faulty_sinks : Page.Sinks unit :=
  {| Page.updateDashboardMetrics := @quiet_sink Payload;
     Page.updateCharts := @quiet_sink Payload;
     Page.updateHealthStatus := @quiet_sink Payload;
     Page.updateConnectionsTable := @broken_sink Payload;
     Page.updateToolsGrid := @quiet_sink Payload;
     Page.updateLogsContainer := @quiet_sink Payload;
     Page.showLastUpdate := @quiet_sink Z;
     Page.showSection := @quiet_sink string;
     Page.setupEventListeners := @quiet_sink unit;
     Page.showApiEndpoint := @quiet_sink string;
     Page.initializeCharts := @broken_sink unit |}.

(** The page as the script finds it, over a given world. *)
Definition page_of (w : World) : Page.t unit :=
  {| Page.world := w; Page.cache := initial_cache; Page.dataTheme := None;
     Page.errors := []; Page.dom := tt |}.

Definition initial_page : Page.t unit := page_of initial_world.

(** The page with a [data-theme] attribute that is present and empty. *)
Definition blank_theme_page : Page.t unit :=
  {| Page.world := initial_world; Page.cache := initial_cache;
     Page.dataTheme := Some EmptyString;
     Page.errors := []; Page.dom := tt |}.

(** ** Vocabulary for the refresh functions *)

Section RefreshVocabulary.

Variable Dom : Type.

(** The refresh function of the section that shows a data resource. *)
Definition refresh_of
    (net : Network) (sinks : Page.Sinks Dom) (kind : ResourceKind)
  : Page.PM Dom unit :=
  match kind with
  | metrics => Page.refreshDashboard net sinks
  | connections => Page.refreshConnections net sinks
  | tools => Page.refreshTools net sinks
  | logs => Page.refreshLogs net sinks
  end.

(** The sink that refresh function calls first. *)
Definition sink_of (sinks : Page.Sinks Dom) (kind : ResourceKind)
  : Page.Sink Dom Payload :=
  match kind with
  | metrics => Page.updateDashboardMetrics sinks
  | connections => Page.updateConnectionsTable sinks
  | tools => Page.updateToolsGrid sinks
  | logs => Page.updateLogsContainer sinks
  end.

(** The text it logs with an error. *)
Definition error_text_of (kind : ResourceKind) : string :=
  match kind with
  | metrics => "Error refreshing dashboard:"
  | connections => "Error refreshing connections:"
  | tools => "Error refreshing tools:"
  | logs => "Error refreshing logs:"
  end.

(** A sink that throws [e] when given [a], whatever the page. *)
Definition sink_throws {A} (sink : Page.Sink Dom A) (a : A) (e : JS.Error) : Prop :=
  forall pg, fst (sink a pg) = JS.Throw e.

(** A sink that returns when given [a], whatever the page. *)
Definition sink_returns {A} (sink : Page.Sink Dom A) (a : A) : Prop :=
  forall pg, fst (sink a pg) = JS.Return tt.

End RefreshVocabulary.

(** What the cache holds for a data resource ([None]: the [null] of
    [metricsData]). *)
Definition cached (kind : ResourceKind) (c : Cache) : option Payload :=
  match kind with
  | metrics => metricsData c
  | connections => Some (connectionsData c)
  | tools => Some (toolsData c)
  | logs => Some (logsData c)
  end.

(** The section of the page that shows a data resource. *)
Definition section_of (kind : ResourceKind) : string :=
  match kind with
  | metrics => "dashboard"
  | connections => "connections"
  | tools => "tools"
  | logs => "logs"
  end.

(** The two worlds differ at most in clock, request trace, console and
    [AppState.serverStatus]. *)
Definition same_settings (w w' : World) : Prop :=
  timers w' = timers w
  /\ next_timer_id w' = next_timer_id w
  /\ set_serverStatus "" (app w') = set_serverStatus "" (app w).

(* ====================================================================== *)
(** * A collating host and an overlapping schedule *)
(* ====================================================================== *)

(** [a] comes before [b], or is [b], in the lexicographic order of the code
    units. *)
Definition lexicographic_le (a b : string) : Prop := (a <=? b)%string = true.

(** A host whose collation ranks the letters first and their case second,
    lower case in front, as the collation of a browser does on ASCII
    letters: [a], [A], [b], [B]. *)
Definition collationCompare (a b : string) : Z :=
  let primary :=
    codeUnitCompare (JS.toLowerCase_ascii a) (JS.toLowerCase_ascii b) in
  if (primary =? 0)%Z then codeUnitCompare b a else primary.

(** A tool with a capital in its name, to go with [tool_a10]. *)
Definition tool_B : Tool.t :=
  {| Tool.name := "B"; Tool.description := ""; Tool.call_count := 7;
     Tool.success_rate := 0; Tool.avg_response_time := 0 |}.

(** Two clicks on the test-connection button, the second while the probe of
    the first is pending: both handlers run up to their [await] before
    either one resumes, then they resume in the order of the clicks.  The
    answer of a probe touches no state a handler reads, so each probe is run
    where it starts.  The result is the pair of texts shown. *)
Definition two_overlapping_tests (net : Network) (apiEndpointInput : string)
  : M (string * string) :=
  original1 <- testConnection_before_await apiEndpointInput ;;
  result1 <- checkHealth net ;;
  original2 <- testConnection_before_await apiEndpointInput ;;
  result2 <- checkHealth net ;;
  text1 <- testConnection_after_await original1 result1 ;;
  text2 <- testConnection_after_await original2 result2 ;;
  ret (text1, text2).

(* ====================================================================== *)
(** * Data source adapter *)
(* ====================================================================== *)

Section AdapterFacts.

Variable net : Network.

Lemma fetchResource_demo (kind : ResourceKind) (w : World) :
  AppState.demoMode (app w) = true ->
  fetchResource net kind w = (JS.Return (mock_of kind), w).
Proof.
  intros Hdemo.
  destruct kind; cbn;
    unfold fetchMetrics, fetchConnections, fetchTools, fetchLogs, bind, get_app;
    rewrite Hdemo; reflexivity.
Qed.

(** Outside demo mode the function issues one request and returns, whatever
    the network does. *)
Lemma fetchResource_live (kind : ResourceKind) (w : World) :
  AppState.demoMode (app w) = false ->
  requests (exec (fetchResource net kind) w)
    = (requests w ++ [resource_url w kind])%list
  /\ exists p, result (fetchResource net kind) w = JS.Return p.
Proof.
  intros Hlive. unfold exec, result, resource_url.
  destruct kind; cbn;
    unfold fetchMetrics, fetchConnections, fetchTools, fetchLogs, bind, get_app,
      try_catch, fetch, response_json, response_ok;
    rewrite Hlive; cbn;
    match goal with
    | |- context [respond net ?u] => destruct (respond net u) as [msg|[|] [d|msg]]
    end; cbn; split; eauto.
Qed.

(** A failed request ends in the handler of the [catch]: a warning on the
    console, and the mock value. *)
Lemma fetchResource_failed (kind : ResourceKind) (w : World) :
  AppState.demoMode (app w) = false ->
  request_failed (respond net (resource_url w kind)) = true ->
  exists e,
    fetchResource net kind w
    = (JS.Return (mock_of kind),
       {| app := app w;
          clock := clock w + latency net (resource_url w kind);
          requests := (requests w ++ [resource_url w kind])%list;
          console := (console w ++ [Warn "API call failed, using mock data:" e])%list;
          timers := timers w;
          next_timer_id := next_timer_id w |}).
Proof.
  intros Hlive. unfold resource_url.
  destruct kind; cbn;
    unfold fetchMetrics, fetchConnections, fetchTools, fetchLogs, bind, get_app,
      try_catch, fetch, response_json, response_ok, console_warn, ret, throw;
    rewrite Hlive; cbn;
    match goal with
    | |- context [respond net ?u] => destruct (respond net u) as [msg|[|] body]
    end; cbn; intros Hfail; try discriminate; eexists; reflexivity.
Qed.

End AdapterFacts.

(** C1.  For each of the four resources (metrics, connections, tools, logs):
    when demo mode is off and the request fails, by a transport error or by
    a non-success status, the fetch function returns the built-in mock value
    of that resource.  It does not throw: the failure ends as one warning on
    the console, after the one request, with the application state as it
    was. *)
Theorem fetch_failure_returns_mock
    (net : Network) (kind : ResourceKind) (w : World) :
  AppState.demoMode (app w) = false ->
  request_failed (respond net (resource_url w kind)) = true ->
  result (fetchResource net kind) w = JS.Return (mock_of kind)
  /\ requests (exec (fetchResource net kind) w)
     = (requests w ++ [resource_url w kind])%list
  /\ (exists e,
        console (exec (fetchResource net kind) w)
        = (console w ++ [Warn "API call failed, using mock data:" e])%list)
  /\ app (exec (fetchResource net kind) w) = app w.
Proof.
  intros Hlive Hfail.
  destruct (fetchResource_failed net kind w Hlive Hfail) as [e He].
  unfold result, exec. rewrite He. cbn.
  repeat split; trivial. exists e. reflexivity.
Qed.

Lemma fetch_failure_returns_mock_witness :
  result (fetchResource offline_net logs) live_world
    = JS.Return (PLogs MockData.logs)
  /\ result (fetchResource failing_net metrics) live_world
    = JS.Return (PMetrics MockData.metrics).
Proof.
  split.
  - exact (proj1 (fetch_failure_returns_mock offline_net logs live_world
                    eq_refl eq_refl)).
  - exact (proj1 (fetch_failure_returns_mock failing_net metrics live_world
                    eq_refl eq_refl)).
Defined.

(** C2.  For each of the four resources: in demo mode the fetch function
    returns the built-in mock value of that resource and leaves the world as
    it was, so no request is issued; it does not throw; and the value is the
    same for every network, every state in demo mode and every repetition of
    the call. *)
Theorem demo_mode_returns_mock
    (net : Network) (kind : ResourceKind) (w : World) :
  AppState.demoMode (app w) = true ->
  result (fetchResource net kind) w = JS.Return (mock_of kind)
  /\ exec (fetchResource net kind) w = w
  /\ requests (exec (fetchResource net kind) w) = requests w
  /\ (forall net' w',
        AppState.demoMode (app w') = true ->
        result (fetchResource net' kind) w' = result (fetchResource net kind) w)
  /\ result (fetchResource net kind) (exec (fetchResource net kind) w)
     = result (fetchResource net kind) w.
Proof.
  intros Hdemo. unfold result, exec.
  rewrite (fetchResource_demo net kind w Hdemo). cbn.
  rewrite (fetchResource_demo net kind w Hdemo). cbn.
  repeat split; trivial.
  intros net' w' Hdemo'. rewrite (fetchResource_demo net' kind w' Hdemo').
  reflexivity.
Qed.

Lemma demo_mode_returns_mock_witness :
  result (fetchResource offline_net connections) initial_world
    = JS.Return (PConnections MockData.connections)
  /\ requests (exec (fetchResource offline_net connections) initial_world) = [].
Proof.
  pose proof (demo_mode_returns_mock offline_net connections initial_world
                eq_refl) as H.
  split.
  - exact (proj1 H).
  - exact (proj1 (proj2 (proj2 H))).
Defined.

(** ** The health probe *)

(** What [checkHealth] returns and does, case by case on what the network
    answers. *)
Lemma checkHealth_cases (net : Network) (w : World) :
  checkHealth net w
  = (JS.Return
       match respond net (health_url w) with
       | NetworkError msg => health_failure msg
       | Response false _ => health_failure "Health check failed"
       | Response true (JsonSyntaxError msg) => health_failure msg
       | Response true (JsonOk d) =>
           {| success := true;
              responseTime := Some (latency net (health_url w));
              data := Some d;
              error := None |}
       end,
     {| app := app w;
        clock := clock w + latency net (health_url w);
        requests := (requests w ++ [health_url w])%list;
        console := console w;
        timers := timers w;
        next_timer_id := next_timer_id w |}).
Proof.
  unfold checkHealth, try_catch, bind, Date_now, get_app, fetch, response_ok,
    response_json, ret, throw, health_url, health_failure.
  cbn.
  destruct (respond net (AppState.apiEndpoint (app w) ++ "/health"))
    as [msg|[|] [d|msg]]; cbn; repeat f_equal; lia.
Qed.

(** C3 (as amended).  The health probe always returns a result object and
    never throws.  When the response has a success status and its body
    parses as JSON, the result is [success = true] with the measured time of
    the round trip and the parsed data.  When the response has a non-success
    status, when the request is rejected, and when the body of a response
    with a success status does not parse, the result is [success = false]
    with an error message and neither time nor data.  Mock data plays no
    part: data, when present, is what the server sent. *)
Theorem checkHealth_structured_result (net : Network) (w : World) :
  (exists r, result (checkHealth net) w = JS.Return r
     /\ (success r = true ->
           exists d, respond net (health_url w) = Response true (JsonOk d)
             /\ responseTime r = Some (latency net (health_url w))
             /\ data r = Some d /\ error r = None)
     /\ (success r = false ->
           responseTime r = None /\ data r = None /\ exists msg, error r = Some msg))
  /\ (forall d, respond net (health_url w) = Response true (JsonOk d) ->
        result (checkHealth net) w
        = JS.Return {| success := true;
                       responseTime := Some (latency net (health_url w));
                       data := Some d; error := None |})
  /\ (forall body, respond net (health_url w) = Response false body ->
        result (checkHealth net) w
        = JS.Return (health_failure "Health check failed"))
  /\ (forall msg, respond net (health_url w) = NetworkError msg ->
        result (checkHealth net) w = JS.Return (health_failure msg))
  /\ (forall msg,
        respond net (health_url w) = Response true (JsonSyntaxError msg) ->
        result (checkHealth net) w = JS.Return (health_failure msg))
  /\ clock (exec (checkHealth net) w) - clock w = latency net (health_url w)
  /\ requests (exec (checkHealth net) w) = (requests w ++ [health_url w])%list.
Proof.
  unfold result, exec. rewrite checkHealth_cases. cbn.
  repeat split.
  - eexists. split; [reflexivity|].
    destruct (respond net (health_url w)) as [msg|[|] [d|msg]]; cbn;
      split; intros Hs; try discriminate; eauto 6.
  - intros d Hr. rewrite Hr. reflexivity.
  - intros body Hr. rewrite Hr. reflexivity.
  - intros msg Hr. rewrite Hr. reflexivity.
  - intros msg Hr. rewrite Hr. reflexivity.
  - lia.
Qed.

(** C3 as stated fails: a response with a success status whose body is not
    JSON (a health endpoint that answers 200 with the text [OK]) gives
    [success = false]. *)
Lemma checkHealth_ok_status_not_success :
  exists body r,
    respond plain_text_net (health_url live_world) = Response true body
    /\ result (checkHealth plain_text_net) live_world = JS.Return r
    /\ success r = false.
Proof. do 2 eexists. repeat split; reflexivity. Qed.

(* ====================================================================== *)
(** * Settings: the test-connection button *)
(* ====================================================================== *)

Lemma on_testConnection_click_cases (net : Network) (input : string) (w : World) :
  let w1 := probing_world input w in
  let w2 := exec (checkHealth net) w1 in
  exists r, result (checkHealth net) w1 = JS.Return r
    /\ exec (on_testConnection_click net input) w
       = if success r then w2
         else with_app (AppState.set_apiEndpoint (AppState.apiEndpoint (app w))
                          (app w2)) w2.
Proof.
  cbn zeta. unfold on_testConnection_click, exec, result, bind, get_app, put_app.
  cbn. fold (probing_world input w).
  rewrite checkHealth_cases. cbn.
  eexists. split; [reflexivity|].
  match goal with
  | |- context [respond net ?u] => destruct (respond net u) as [msg|[|] [d|msg]]
  end; reflexivity.
Qed.

(** One click on the test-connection button, run to its end with nothing
    else in between.  The handler writes the candidate (the text of the
    input field, or the configured endpoint when the field is empty) into
    [AppState.apiEndpoint] before it probes, so the probe goes to the
    candidate.  When the probe reports failure the handler writes back the
    endpoint it found at the start, and the application state ends as it
    began; when the probe reports success the candidate stays. *)
Theorem test_connection_commits_on_success_only
    (net : Network) (input : string) (w : World) :
  let candidate := JS.or_string input (AppState.apiEndpoint (app w)) in
  let w' := exec (on_testConnection_click net input) w in
  AppState.apiEndpoint (app (probing_world input w)) = candidate
  /\ requests w' = (requests w ++ [(candidate ++ "/health")%string])%list
  /\ exists r,
       result (checkHealth net) (probing_world input w) = JS.Return r
       /\ (success r = false -> app w' = app w)
       /\ (success r = true ->
             app w' = AppState.set_apiEndpoint candidate (app w))
       /\ AppState.apiEndpoint (app w')
          = if success r then candidate else AppState.apiEndpoint (app w).
Proof.
  cbn zeta.
  destruct (on_testConnection_click_cases net input w) as [r [Hr Hw]].
  cbn zeta in Hw. rewrite Hw. clear Hw.
  unfold result in Hr. unfold exec. rewrite checkHealth_cases in *.
  cbn in Hr. injection Hr as Hr.
  split; [reflexivity|]. split.
  - destruct (success r); reflexivity.
  - exists r. unfold result. rewrite checkHealth_cases. cbn.
    split; [congruence|].
    destruct (success r); cbn; repeat split; intros; try discriminate;
      try reflexivity.
    destruct w as [[] ]; reflexivity.
Qed.

(** C10.  The roll-back of the test-connection button is lost when two
    tests overlap.  With a candidate typed into the field whose probe fails
    (the request is rejected, or answered with a non-success status), two
    clicks, the second while the first probe is pending, both report
    "Connection failed", and yet [AppState.apiEndpoint] ends as the
    candidate: the second click saved the candidate of the first as the
    endpoint to go back to.  One such click alone leaves the endpoint as it
    was. *)
Theorem two_failed_tests_leave_candidate_configured
    (net : Network) (input : string) (w : World) :
  JS.truthy_string input = true ->
  request_failed (respond net (input ++ "/health")) = true ->
  (exists msg,
     result (two_overlapping_tests net input) w
     = JS.Return ("Connection failed: " ++ msg, "Connection failed: " ++ msg))
  /\ AppState.apiEndpoint (app (exec (two_overlapping_tests net input) w))
     = input
  /\ requests (exec (two_overlapping_tests net input) w)
     = (requests w ++ [(input ++ "/health")%string;
                       (input ++ "/health")%string])%list
  /\ AppState.apiEndpoint (app (exec (on_testConnection_click net input) w))
     = AppState.apiEndpoint (app w).
Proof.
  intros Hin Hfail.
  destruct input as [|c input]; [discriminate|]. clear Hin.
  unfold result, exec, two_overlapping_tests, on_testConnection_click,
    testConnection_before_await, testConnection_after_await, bind, get_app,
    put_app, ret.
  do 3 (cbn -[checkHealth]; rewrite ?checkHealth_cases).
  unfold health_url, health_failure. cbn.
  cbn in Hfail. revert Hfail.
  destruct (respond net (String c (input ++ "/health")))
    as [msg|[|] [d|msg]];
    cbn; intros Hfail; try discriminate;
    (split; [eexists; reflexivity | repeat split]);
    rewrite <- app_assoc; reflexivity.
Qed.

Lemma two_failed_tests_leave_candidate_configured_witness :
  AppState.apiEndpoint (app live_world) = "http://localhost:8000"
  /\ result (two_overlapping_tests offline_net "http://down.test") live_world
     = JS.Return ("Connection failed: Failed to fetch",
                  "Connection failed: Failed to fetch")
  /\ AppState.apiEndpoint
       (app (exec (two_overlapping_tests offline_net "http://down.test")
               live_world))
     = "http://down.test"
  /\ AppState.apiEndpoint
       (app (exec (on_testConnection_click offline_net "http://down.test")
               live_world))
     = "http://localhost:8000".
Proof.
  destruct (two_failed_tests_leave_candidate_configured offline_net
              "http://down.test" live_world eq_refl eq_refl)
    as [_ [Hep [_ Hone]]].
  exact (conj eq_refl (conj eq_refl (conj Hep Hone))).
Defined.

(* ====================================================================== *)
(** * Utility functions *)
(* ====================================================================== *)

Lemma formatDuration_hours (seconds : Z) :
  3600 <= seconds ->
  formatDuration seconds
  = JS.Number_toString (seconds / 3600) ++ "h "
    ++ JS.Number_toString (seconds mod 3600 / 60) ++ "m".
Proof.
  intros H. unfold formatDuration, JS.floor_div, JS.remainder.
  rewrite Z.rem_mod_nonneg by lia.
  assert (0 < seconds / 3600) by (apply Z.div_str_pos; lia).
  destruct (Z.gtb_spec (seconds / 3600) 0); [reflexivity | lia].
Qed.

Lemma formatDuration_minutes (seconds : Z) :
  60 <= seconds < 3600 ->
  formatDuration seconds
  = JS.Number_toString (seconds / 60) ++ "m "
    ++ JS.Number_toString (seconds mod 60) ++ "s".
Proof.
  intros H. unfold formatDuration, JS.floor_div, JS.remainder.
  rewrite !Z.rem_mod_nonneg by lia.
  rewrite (Z.div_small seconds 3600), (Z.mod_small seconds 3600) by lia.
  assert (0 < seconds / 60) by (apply Z.div_str_pos; lia).
  cbn [Z.gtb Z.compare].
  destruct (Z.gtb_spec (seconds / 60) 0); [reflexivity | lia].
Qed.

Lemma formatDuration_seconds (seconds : Z) :
  0 <= seconds < 60 ->
  formatDuration seconds = JS.Number_toString seconds ++ "s".
Proof.
  intros H. unfold formatDuration, JS.floor_div, JS.remainder.
  rewrite !Z.rem_mod_nonneg by lia.
  rewrite (Z.div_small seconds 3600), (Z.mod_small seconds 3600) by lia.
  rewrite (Z.div_small seconds 60), (Z.mod_small seconds 60) by lia.
  reflexivity.
Qed.

(** C9.  On a whole number of seconds that is not negative, [formatDuration]
    prints hours and minutes from 3600 on, minutes and seconds from 60 to
    3599, and bare seconds below 60; so 3600 gives "1h 0m", 125 gives
    "2m 5s" and 45 gives "45s", and at the boundaries 0 gives "0s", 59
    "59s", 60 "1m 0s", 3599 "59m 59s" and 7200 "2h 0m". *)
Theorem formatDuration_spec :
  (forall seconds, 0 <= seconds ->
     formatDuration seconds
     = if (3600 <=? seconds)%Z then
         JS.Number_toString (seconds / 3600) ++ "h "
         ++ JS.Number_toString (seconds mod 3600 / 60) ++ "m"
       else if (60 <=? seconds)%Z then
         JS.Number_toString (seconds / 60) ++ "m "
         ++ JS.Number_toString (seconds mod 60) ++ "s"
       else JS.Number_toString seconds ++ "s")
  /\ formatDuration 3600 = "1h 0m"
  /\ formatDuration 125 = "2m 5s"
  /\ formatDuration 45 = "45s"
  /\ formatDuration 0 = "0s"
  /\ formatDuration 59 = "59s"
  /\ formatDuration 60 = "1m 0s"
  /\ formatDuration 3599 = "59m 59s"
  /\ formatDuration 7200 = "2h 0m".
Proof.
  split; [|repeat split; reflexivity].
  intros seconds H.
  destruct (Z.leb_spec 3600 seconds).
  - apply formatDuration_hours; lia.
  - destruct (Z.leb_spec 60 seconds).
    + apply formatDuration_minutes; lia.
    + apply formatDuration_seconds; lia.
Qed.

Lemma formatDuration_spec_witness :
  formatDuration 3725 = "1h 2m"
  /\ formatDuration 3725
     = JS.Number_toString (3725 / 3600) ++ "h "
       ++ JS.Number_toString (3725 mod 3600 / 60) ++ "m".
Proof.
  split; [reflexivity|].
  apply (proj1 formatDuration_spec 3725). lia.
Defined.

(* ====================================================================== *)
(** * Auto-refresh scheduler *)
(* ====================================================================== *)

Section SchedulerFacts.

(** Under the invariant, clearing the handle in [AppState.refreshInterval]
    (when it is truthy) leaves no live timer. *)
Lemma clear_current_timer (w : World) :
  sched_inv w ->
  timers
    (exec (if truthy_handle (AppState.refreshInterval (app w))
           then clearInterval (AppState.refreshInterval (app w))
           else ret tt) w) = [].
Proof.
  intros [Hnext [Hnil | [t [Ht [Hh Hid]]]]].
  - destruct (truthy_handle _); cbn; [|exact Hnil].
    rewrite Hnil. destruct (AppState.refreshInterval (app w)); reflexivity.
  - rewrite Hh. cbn.
    destruct (Z.eqb_spec (timer_id t) 0) as [E|E]; [lia|]. cbn.
    rewrite Ht. cbn. rewrite Z.eqb_refl. reflexivity.
Qed.

Lemma startAutoRefresh_timers (w : World) :
  sched_inv w ->
  timers (exec startAutoRefresh w)
  = (if AppState.autoRefresh (app w) then [fresh_timer w] else [])
  /\ next_timer_id (exec startAutoRefresh w)
     = (if AppState.autoRefresh (app w) then next_timer_id w + 1
        else next_timer_id w)
  /\ app (exec startAutoRefresh w)
     = (if AppState.autoRefresh (app w)
        then AppState.set_refreshInterval (Some (next_timer_id w)) (app w)
        else app w)
  /\ clock (exec startAutoRefresh w) = clock w.
Proof.
  intros Hinv. pose proof (clear_current_timer Hinv) as Hclear.
  unfold startAutoRefresh, exec, bind, get_app in *. cbn in *.
  destruct (truthy_handle (AppState.refreshInterval (app w))); cbn in *;
    destruct (AppState.autoRefresh (app w)); cbn in *;
    rewrite ?Hclear; repeat split; reflexivity.
Qed.

Lemma stopAutoRefresh_timers (w : World) :
  sched_inv w ->
  timers (exec stopAutoRefresh w) = []
  /\ next_timer_id (exec stopAutoRefresh w) = next_timer_id w
  /\ (truthy_handle (AppState.refreshInterval (app w)) = false ->
      exec stopAutoRefresh w = w)
  /\ (truthy_handle (AppState.refreshInterval (app w)) = true ->
      AppState.refreshInterval (app (exec stopAutoRefresh w)) = None).
Proof.
  intros Hinv. pose proof (clear_current_timer Hinv) as Hclear.
  unfold stopAutoRefresh, exec, bind, get_app in *. cbn in *.
  destruct (truthy_handle (AppState.refreshInterval (app w))) eqn:Htr;
    cbn in *; repeat split; trivial; try discriminate.
Qed.

Lemma startAutoRefresh_inv (w : World) :
  sched_inv w -> sched_inv (exec startAutoRefresh w).
Proof.
  intros Hinv.
  destruct (startAutoRefresh_timers Hinv) as [Ht [Hn [Ha _]]].
  destruct Hinv as [Hpos _].
  unfold sched_inv. rewrite Ht, Hn, Ha.
  destruct (AppState.autoRefresh (app w)); split; try lia.
  - right. exists (fresh_timer w). cbn. repeat split; lia.
  - left. reflexivity.
Qed.

Lemma stopAutoRefresh_inv (w : World) :
  sched_inv w -> sched_inv (exec stopAutoRefresh w).
Proof.
  intros Hinv.
  destruct (stopAutoRefresh_timers Hinv) as [Ht [Hn _]].
  destruct Hinv as [Hpos _].
  unfold sched_inv. rewrite Ht, Hn. split; [lia | left; reflexivity].
Qed.

(** Writing a setting that is not the timer handle keeps the invariant. *)
Lemma sched_inv_same_timers (w w' : World) :
  timers w' = timers w ->
  next_timer_id w' = next_timer_id w ->
  AppState.refreshInterval (app w') = AppState.refreshInterval (app w) ->
  sched_inv w -> sched_inv w'.
Proof.
  intros Ht Hn Hh. unfold sched_inv. rewrite Ht, Hn, Hh. trivial.
Qed.

Lemma sched_step_inv (w w' : World) :
  sched_step w w' -> sched_inv w -> sched_inv w'.
Proof.
  intros Hstep Hinv. destruct Hstep as [w | w | w value | w checked | w w' Ht Hn Hh].
  - apply startAutoRefresh_inv, Hinv.
  - apply stopAutoRefresh_inv, Hinv.
  - unfold on_refreshRate_change, exec, bind, get_app, put_app. cbn.
    set (w1 := with_app (AppState.set_refreshRate value (app w)) w).
    assert (sched_inv w1) as H1
        by (apply (@sched_inv_same_timers w w1); trivial).
    destruct (AppState.autoRefresh (app w)).
    + apply (startAutoRefresh_inv H1).
    + exact H1.
  - unfold on_autoRefresh_change, exec, bind, get_app, put_app. cbn.
    set (w1 := with_app (AppState.set_autoRefresh checked (app w)) w).
    assert (sched_inv w1) as H1
        by (apply (@sched_inv_same_timers w w1); trivial).
    destruct checked.
    + apply (startAutoRefresh_inv H1).
    + apply (stopAutoRefresh_inv H1).
  - apply (@sched_inv_same_timers w w'); trivial.
Qed.

Lemma reachable_inv (w : World) : reachable w -> sched_inv w.
Proof.
  induction 1 as [| w w' _ IH Hstep].
  - split; [reflexivity | left; reflexivity].
  - exact (sched_step_inv Hstep IH).
Qed.

(** A timer fires once in each window of one period that starts a whole
    number of periods after it was set. *)
Lemma fired_by_window (t : Timer) (k : Z) :
  0 < period t -> 0 <= k ->
  fired_by t (created t + (k + 1) * period t)
  - fired_by t (created t + k * period t) = 1.
Proof.
  intros Hp Hk. unfold fired_by.
  destruct (Z.gtb_spec (period t) 0); [|lia].
  replace (created t + (k + 1) * period t - created t)
    with ((k + 1) * period t) by lia.
  replace (created t + k * period t - created t) with (k * period t) by lia.
  rewrite !Z.div_mul by lia. lia.
Qed.

Lemma stopAutoRefresh_returns (w : World) :
  result stopAutoRefresh w = JS.Return tt.
Proof.
  unfold stopAutoRefresh, result, bind, get_app. cbn.
  destruct (truthy_handle (AppState.refreshInterval (app w))); reflexivity.
Qed.

Lemma stopAutoRefresh_twice (w : World) :
  sched_inv w ->
  exec stopAutoRefresh (exec stopAutoRefresh w) = exec stopAutoRefresh w.
Proof.
  intros Hinv.
  destruct (stopAutoRefresh_timers Hinv) as [_ [_ [Hoff Hon]]].
  destruct (stopAutoRefresh_timers (stopAutoRefresh_inv Hinv))
    as [_ [_ [Hoff' _]]].
  destruct (truthy_handle (AppState.refreshInterval (app w))) eqn:Htr.
  - apply Hoff'. rewrite (Hon eq_refl). reflexivity.
  - rewrite (Hoff eq_refl). exact (Hoff eq_refl).
Qed.

End SchedulerFacts.

(** C4.  In every state the page can reach, at most one interval timer is
    live, and it is the one whose handle [AppState.refreshInterval] holds.
    [startAutoRefresh] clears the live timer before it sets a new one: after
    two calls in a row (auto-refresh on, a positive refresh rate) exactly one
    timer is live, with the refresh rate as its period, and the dispatcher is
    called exactly once in each window of one period.  With auto-refresh off
    [startAutoRefresh] leaves no timer live.  [stopAutoRefresh] returns
    without throwing, leaves no timer live, and a second call changes
    nothing. *)
Theorem scheduler_single_timer :
  (forall w, reachable w ->
     (List.length (timers w) <= 1)%nat
     /\ forall t, In t (timers w) ->
          AppState.refreshInterval (app w) = Some (timer_id t))
  /\ (forall w, reachable w ->
        AppState.autoRefresh (app w) = true ->
        0 < AppState.refreshRate (app w) ->
        let w1 := exec startAutoRefresh w in
        let w2 := exec startAutoRefresh w1 in
        let rate := AppState.refreshRate (app w) in
        timers w1 = [fresh_timer w]
        /\ (exists t, timers w2 = [t] /\ period t = rate /\ created t = clock w
              /\ AppState.refreshInterval (app w2) = Some (timer_id t))
        /\ forall k, 0 <= k ->
             dispatcher_calls w2 (clock w + k * rate) (clock w + (k + 1) * rate)
             = 1)
  /\ (forall w, reachable w ->
        AppState.autoRefresh (app w) = false ->
        timers (exec startAutoRefresh w) = [])
  /\ (forall w, reachable w ->
        result stopAutoRefresh w = JS.Return tt
        /\ timers (exec stopAutoRefresh w) = []
        /\ exec stopAutoRefresh (exec stopAutoRefresh w) = exec stopAutoRefresh w
        /\ (AppState.refreshInterval (app w) = None ->
            exec stopAutoRefresh w = w)).
Proof.
  repeat apply conj.
  - intros w Hw. destruct (reachable_inv Hw) as [_ [Hnil | [t [Ht [Hh _]]]]].
    + rewrite Hnil. split; [cbn; lia | intros t []].
    + rewrite Ht. split; [cbn; lia|].
      intros t' [<- | []]. exact Hh.
  - intros w Hw Hon Hrate. cbn zeta.
    pose proof (reachable_inv Hw) as Hinv.
    destruct (startAutoRefresh_timers Hinv) as [Ht1 [_ [Ha1 Hc1]]].
    rewrite Hon in Ht1, Ha1.
    pose proof (startAutoRefresh_inv Hinv) as Hinv1.
    destruct (startAutoRefresh_timers Hinv1) as [Ht2 [_ [Ha2 _]]].
    rewrite Ha1 in Ht2, Ha2. cbn in Ht2, Ha2. rewrite Hon in Ht2, Ha2.
    assert (fresh_timer (exec startAutoRefresh w)
            = {| timer_id := next_timer_id (exec startAutoRefresh w);
                 period := AppState.refreshRate (app w);
                 created := clock w |}) as Hfresh
        by (unfold fresh_timer; rewrite Ha1, Hc1; reflexivity).
    rewrite Hfresh in Ht2.
    split; [exact Ht1|]. split.
    + eexists. split; [exact Ht2|]. cbn. rewrite Ha2. repeat split.
    + intros k Hk. unfold dispatcher_calls. rewrite Ht2. cbn [fold_right].
      match goal with
      | |- fired_by ?t _ - fired_by ?t _ + 0 = 1 =>
          pose proof (@fired_by_window t k) as Hwin
      end.
      cbn in Hwin. specialize (Hwin Hrate Hk). lia.
  - intros w Hw Hoff.
    destruct (startAutoRefresh_timers (reachable_inv Hw)) as [Ht _].
    rewrite Hoff in Ht. exact Ht.
  - intros w Hw. pose proof (reachable_inv Hw) as Hinv.
    destruct (stopAutoRefresh_timers Hinv) as [Ht [_ [Hoff _]]].
    repeat split.
    + apply stopAutoRefresh_returns.
    + exact Ht.
    + apply (stopAutoRefresh_twice Hinv).
    + intros Hnone. apply Hoff. rewrite Hnone. reflexivity.
Qed.

Lemma scheduler_single_timer_witness :
  (List.length (timers (exec startAutoRefresh (exec startAutoRefresh initial_world)))
   <= 1)%nat
  /\ dispatcher_calls (exec startAutoRefresh (exec startAutoRefresh initial_world))
       0 5000 = 1
  /\ dispatcher_calls (exec startAutoRefresh (exec startAutoRefresh initial_world))
       5000 10000 = 1.
Proof.
  pose proof scheduler_single_timer as [Hone [Htwice _]].
  split.
  - apply Hone. do 2 (eapply reach_step; [|apply step_start]). apply reach_init.
  - destruct (Htwice initial_world reach_init eq_refl eq_refl) as [_ [_ Hcalls]].
    split.
    + exact (Hcalls 0 ltac:(lia)).
    + exact (Hcalls 1 ltac:(lia)).
Defined.

(* ====================================================================== *)
(** * Filter/sort pipeline *)
(* ====================================================================== *)

(** ** [Array.prototype.sort] with a consistent comparator *)

Section SortFacts.

Variable A : Type.
Variable comparefn : A -> A -> Q.

Lemma sort_insert_perm (x : A) (l : list A) :
  Permutation (x :: l) (JS.sort_insert comparefn x l).
Proof.
  induction l as [|y l IH]; cbn.
  - apply Permutation_refl.
  - destruct (JS.not_after comparefn x y).
    + apply Permutation_refl.
    + eapply perm_trans; [apply perm_swap|]. apply perm_skip, IH.
Qed.

Lemma Array_sort_perm (l : list A) :
  Permutation l (JS.Array_sort comparefn l).
Proof.
  induction l as [|x l IH]; cbn.
  - apply perm_nil.
  - eapply perm_trans; [apply perm_skip, IH | apply sort_insert_perm].
Qed.

(** Elements that may stay in front of each other keep their order: the
    sort is stable. *)
Lemma sort_insert_filter (p : A -> bool) (x : A) (l : list A) :
  (forall y, p x = true -> p y = true -> JS.not_after comparefn x y = true) ->
  filter p (JS.sort_insert comparefn x l) = filter p (x :: l).
Proof.
  intros Htie. induction l as [|y l IH]; [reflexivity|].
  cbn [JS.sort_insert].
  destruct (JS.not_after comparefn x y) eqn:Hxy; [reflexivity|].
  cbn [filter] in *. rewrite IH.
  destruct (p x) eqn:Hpx; [|reflexivity].
  destruct (p y) eqn:Hpy; [|reflexivity].
  rewrite (Htie y eq_refl Hpy) in Hxy. discriminate.
Qed.

Lemma Array_sort_stable (p : A -> bool) (l : list A) :
  (forall x y, p x = true -> p y = true -> JS.not_after comparefn x y = true) ->
  filter p (JS.Array_sort comparefn l) = filter p l.
Proof.
  intros Htie. induction l as [|x l IH]; [reflexivity|].
  cbn [JS.Array_sort].
  rewrite sort_insert_filter by (intros y; apply Htie).
  cbn [filter]. rewrite IH. reflexivity.
Qed.

Hypothesis leq_total :
  forall x y, JS.not_after comparefn x y = true
              \/ JS.not_after comparefn y x = true.
Hypothesis leq_trans :
  forall x y z, JS.not_after comparefn x y = true ->
                JS.not_after comparefn y z = true ->
                JS.not_after comparefn x z = true.

Lemma sort_insert_sorted (x : A) (l : list A) :
  StronglySorted (JS.in_order comparefn) l -> StronglySorted (JS.in_order comparefn) (JS.sort_insert comparefn x l).
Proof.
  induction 1 as [|y l Hl IH Hy]; cbn.
  - repeat constructor.
  - destruct (JS.not_after comparefn x y) eqn:Hxy.
    + constructor; [constructor; assumption|].
      constructor; [exact Hxy|].
      eapply Forall_impl; [|exact Hy].
      intros z Hyz. exact (leq_trans _ _ _ Hxy Hyz).
    + constructor; [exact IH|].
      apply (Permutation_Forall (sort_insert_perm x l)).
      constructor; [|exact Hy].
      destruct (leq_total x y) as [H|H]; [congruence | exact H].
Qed.

Lemma Array_sort_sorted (l : list A) :
  StronglySorted (JS.in_order comparefn) (JS.Array_sort comparefn l).
Proof.
  induction l as [|x l IH]; cbn.
  - constructor.
  - apply sort_insert_sorted, IH.
Qed.

Lemma not_after_refl (x : A) : JS.not_after comparefn x x = true.
Proof. destruct (leq_total x x); assumption. Qed.

Lemma tied_in_order (x a b : A) :
  JS.tied comparefn x a = true -> JS.tied comparefn x b = true ->
  JS.not_after comparefn a b = true.
Proof.
  unfold JS.tied. rewrite !andb_true_iff. intros [_ Hax] [Hxb _].
  exact (leq_trans _ _ _ Hax Hxb).
Qed.

(** Among the arrangements of the same elements there is one only that is in
    comparator order and keeps tied elements in their original order; so
    the result of the sort does not depend on the algorithm of the engine. *)
Lemma sorted_stable_unique (s t : list A) :
  Permutation s t ->
  StronglySorted (JS.in_order comparefn) s ->
  StronglySorted (JS.in_order comparefn) t ->
  (forall x, filter (JS.tied comparefn x) s = filter (JS.tied comparefn x) t) ->
  s = t.
Proof.
  revert t. induction s as [|a s IH]; intros t Hperm Hs Ht Hstable.
  - symmetry. apply Permutation_nil, Hperm.
  - destruct t as [|b t].
    + apply Permutation_sym, Permutation_nil in Hperm. discriminate.
    + apply StronglySorted_inv in Hs, Ht.
      destruct Hs as [Hs Ha], Ht as [Ht Hb].
      assert (JS.not_after comparefn a b = true) as Hab.
      { assert (In b (a :: s)) as [<- | Hin]
            by (apply (Permutation_in b (Permutation_sym Hperm)); left;
                reflexivity).
        - apply not_after_refl.
        - exact (proj1 (Forall_forall _ _) Ha b Hin). }
      assert (JS.not_after comparefn b a = true) as Hba.
      { assert (In a (b :: t)) as [<- | Hin]
            by (apply (Permutation_in a Hperm); left; reflexivity).
        - apply not_after_refl.
        - exact (proj1 (Forall_forall _ _) Hb a Hin). }
      assert (a = b) as <-.
      { specialize (Hstable a). cbn [filter] in Hstable.
        assert (JS.tied comparefn a a = true) as Haa
            by (unfold JS.tied; rewrite not_after_refl; reflexivity).
        assert (JS.tied comparefn a b = true) as Htab
            by (unfold JS.tied; rewrite Hab, Hba; reflexivity).
        rewrite Haa, Htab in Hstable. congruence. }
      f_equal. apply IH; trivial.
      * exact (Permutation_cons_inv Hperm).
      * intros x. specialize (Hstable x). cbn [filter] in Hstable.
        destruct (JS.tied comparefn x a); congruence.
Qed.

Lemma Array_sort_unique (l s : list A) :
  Permutation l s ->
  StronglySorted (JS.in_order comparefn) s ->
  (forall x, filter (JS.tied comparefn x) s = filter (JS.tied comparefn x) l) ->
  s = JS.Array_sort comparefn l.
Proof.
  intros Hperm Hs Hstable. apply sorted_stable_unique; trivial.
  - eapply perm_trans; [apply Permutation_sym, Hperm | apply Array_sort_perm].
  - apply Array_sort_sorted.
  - intros x. rewrite Hstable. symmetry. apply Array_sort_stable.
    intros a b. apply tied_in_order.
Qed.

End SortFacts.

Lemma StronglySorted_impl (A : Type) (R R' : A -> A -> Prop) (l : list A) :
  (forall x y, R x y -> R' x y) -> StronglySorted R l -> StronglySorted R' l.
Proof.
  intros HR. induction 1 as [|x l Hl IH Hx]; constructor.
  - exact IH.
  - eapply Forall_impl; [|exact Hx]. intros y. apply HR.
Qed.

Lemma StronglySorted_impl_in (A : Type) (R R' : A -> A -> Prop) (l : list A) :
  (forall x y, In x l -> In y l -> R x y -> R' x y) ->
  StronglySorted R l -> StronglySorted R' l.
Proof.
  intros HR Hs. induction Hs as [|x l Hl IH Hx]; constructor.
  - apply IH. intros a b Ha Hb. apply HR; right; assumption.
  - apply Forall_forall. intros y Hy.
    apply HR; [left; reflexivity | right; exact Hy |].
    exact (proj1 (Forall_forall _ _) Hx y Hy).
Qed.

(** ** The three comparators of the tools grid *)

Lemma by_calls_not_after (a b : Tool.t) :
  JS.not_after by_calls a b = (Tool.call_count b <=? Tool.call_count a)%Z.
Proof.
  unfold JS.not_after, by_calls, Qle_bool. cbn.
  rewrite Z.mul_1_r.
  destruct (Z.leb_spec (Tool.call_count b - Tool.call_count a) 0);
    destruct (Z.leb_spec (Tool.call_count b) (Tool.call_count a)); lia.
Qed.

Lemma by_name_not_after (localeCompare : string -> string -> Z) (a b : Tool.t) :
  JS.not_after (by_name localeCompare) a b
  = (localeCompare (Tool.name a) (Tool.name b) <=? 0)%Z.
Proof.
  unfold JS.not_after, by_name, Qle_bool. cbn.
  rewrite Z.mul_1_r. reflexivity.
Qed.

Lemma by_success_not_after (a b : Tool.t) :
  JS.not_after by_success a b = true
  <-> (Tool.success_rate b <= Tool.success_rate a)%Q.
Proof.
  unfold JS.not_after, by_success. rewrite Qle_bool_iff.
  split; intros H; lra.
Qed.

Section ToolsSortFacts.

Variable localeCompare : string -> string -> Z.

(** [localeCompare] is a consistent comparator on strings, as the language
    requires of it. *)
Hypothesis localeCompare_antisym :
  forall a b, Z.sgn (localeCompare a b) = - Z.sgn (localeCompare b a).
Hypothesis localeCompare_trans :
  forall a b c,
    localeCompare a b <= 0 -> localeCompare b c <= 0 -> localeCompare a c <= 0.

Lemma by_calls_total (a b : Tool.t) :
  JS.not_after by_calls a b = true \/ JS.not_after by_calls b a = true.
Proof. rewrite !by_calls_not_after, !Z.leb_le. lia. Qed.

Lemma by_calls_trans (a b c : Tool.t) :
  JS.not_after by_calls a b = true -> JS.not_after by_calls b c = true ->
  JS.not_after by_calls a c = true.
Proof. rewrite !by_calls_not_after, !Z.leb_le. lia. Qed.

Lemma by_name_total (a b : Tool.t) :
  JS.not_after (by_name localeCompare) a b = true
  \/ JS.not_after (by_name localeCompare) b a = true.
Proof.
  rewrite !by_name_not_after, !Z.leb_le.
  pose proof (localeCompare_antisym (Tool.name a) (Tool.name b)). lia.
Qed.

Lemma by_name_trans (a b c : Tool.t) :
  JS.not_after (by_name localeCompare) a b = true ->
  JS.not_after (by_name localeCompare) b c = true ->
  JS.not_after (by_name localeCompare) a c = true.
Proof. rewrite !by_name_not_after, !Z.leb_le. apply localeCompare_trans. Qed.

Lemma by_success_total (a b : Tool.t) :
  JS.not_after by_success a b = true \/ JS.not_after by_success b a = true.
Proof.
  rewrite !by_success_not_after.
  destruct (Qlt_le_dec (Tool.success_rate a) (Tool.success_rate b)) as [H|H];
    [right; apply Qlt_le_weak, H | left; exact H].
Qed.

Lemma by_success_trans (a b c : Tool.t) :
  JS.not_after by_success a b = true -> JS.not_after by_success b c = true ->
  JS.not_after by_success a c = true.
Proof.
  rewrite !by_success_not_after. intros H1 H2. exact (Qle_trans _ _ _ H2 H1).
Qed.

(** C5 (as amended).  The tools grid shows the tools it was given,
    rearranged: sorted by [calls], each tool has at most the call count of
    the one before it; sorted by [success], each tool has at most the
    success rate of the one before it; sorted by [name], names do not
    decrease in the order of the host's [localeCompare], a collation that
    need not be the lexicographic order of the code units.  Where the host
    ranks the names of the tools at hand as the lexicographic order does,
    the names come out lexicographically non-decreasing.  In each case tools
    that tie (equal call count, names that compare equal, equal success
    rate) stay in the order of the input.  The tools "b" with 5 calls and
    "a" with 10 calls, sorted by [calls], come out as "a", "b". *)
Theorem tools_sort_spec (tools : list Tool.t) :
  (let sorted := sortedTools localeCompare "calls" tools in
   Permutation tools sorted
   /\ StronglySorted
        (fun a b => Tool.call_count b <= Tool.call_count a) sorted
   /\ forall k,
        filter (fun t => (Tool.call_count t =? k)%Z) sorted
        = filter (fun t => (Tool.call_count t =? k)%Z) tools)
  /\ (let sorted := sortedTools localeCompare "name" tools in
      Permutation tools sorted
      /\ StronglySorted
           (fun a b => localeCompare (Tool.name a) (Tool.name b) <= 0) sorted
      /\ forall n,
           filter (fun t => (localeCompare n (Tool.name t) =? 0)%Z) sorted
           = filter (fun t => (localeCompare n (Tool.name t) =? 0)%Z) tools)
  /\ (let sorted := sortedTools localeCompare "success" tools in
      Permutation tools sorted
      /\ StronglySorted
           (fun a b => (Tool.success_rate b <= Tool.success_rate a)%Q) sorted
      /\ forall q,
           filter (fun t => Qeq_bool (Tool.success_rate t) q) sorted
           = filter (fun t => Qeq_bool (Tool.success_rate t) q) tools)
  /\ sortedTools localeCompare "calls" [tool_b5; tool_a10]
     = [tool_a10; tool_b5]
  /\ ((forall a b, In a tools -> In b tools ->
         localeCompare (Tool.name a) (Tool.name b) <= 0 ->
         lexicographic_le (Tool.name a) (Tool.name b)) ->
      StronglySorted
        (fun a b => lexicographic_le (Tool.name a) (Tool.name b))
        (sortedTools localeCompare "name" tools)).
Proof.
  unfold sortedTools. cbn [String.eqb Ascii.eqb Bool.eqb].
  repeat apply conj; try reflexivity.
  - apply Array_sort_perm.
  - eapply StronglySorted_impl;
      [|apply Array_sort_sorted; [apply by_calls_total | apply by_calls_trans]].
    intros a b. unfold JS.in_order.
    rewrite by_calls_not_after, Z.leb_le. trivial.
  - intros k. apply Array_sort_stable. intros x y Hx Hy.
    rewrite by_calls_not_after, Z.leb_le.
    apply Z.eqb_eq in Hx, Hy. lia.
  - apply Array_sort_perm.
  - eapply StronglySorted_impl;
      [|apply Array_sort_sorted; [apply by_name_total | apply by_name_trans]].
    intros a b. unfold JS.in_order.
    rewrite by_name_not_after, Z.leb_le. trivial.
  - intros n. apply Array_sort_stable. intros x y Hx Hy.
    rewrite by_name_not_after, Z.leb_le.
    apply Z.eqb_eq in Hx, Hy.
    apply localeCompare_trans with (b := n); [|lia].
    pose proof (localeCompare_antisym (Tool.name x) n). lia.
  - apply Array_sort_perm.
  - eapply StronglySorted_impl;
      [|apply Array_sort_sorted;
        [apply by_success_total | apply by_success_trans]].
    intros a b. unfold JS.in_order. apply by_success_not_after.
  - intros q. apply Array_sort_stable. intros x y Hx Hy.
    apply by_success_not_after.
    apply Qeq_bool_iff in Hx, Hy. rewrite Hx, Hy. apply Qle_refl.
  - intros Hagree.
    eapply StronglySorted_impl_in;
      [|apply Array_sort_sorted; [apply by_name_total | apply by_name_trans]].
    intros a b Ha Hb. unfold JS.in_order.
    rewrite by_name_not_after, Z.leb_le.
    apply Hagree;
      eapply Permutation_in;
      try (apply Permutation_sym; apply Array_sort_perm); eassumption.
Qed.

End ToolsSortFacts.

Lemma codeUnitCompare_antisym (a b : string) :
  Z.sgn (codeUnitCompare a b) = - Z.sgn (codeUnitCompare b a).
Proof.
  unfold codeUnitCompare. rewrite (String.compare_antisym a b).
  destruct (String.compare b a); reflexivity.
Qed.

Lemma codeUnitCompare_trans (a b c : string) :
  codeUnitCompare a b <= 0 -> codeUnitCompare b c <= 0 ->
  codeUnitCompare a c <= 0.
Proof.
  unfold codeUnitCompare.
  destruct (String.compare a b) eqn:Eab; [| |lia];
    destruct (String.compare b c) eqn:Ebc; [| |lia| | |lia]; intros _ _.
  - apply String.compare_eq_iff in Eab, Ebc. subst.
    pose proof (proj2 (String_as_OT.cmp_eq c c) eq_refl) as Hcc.
    unfold String_as_OT.cmp in Hcc. rewrite Hcc. lia.
  - apply String.compare_eq_iff in Eab. subst. rewrite Ebc. lia.
  - apply String.compare_eq_iff in Ebc. subst. rewrite Eab. lia.
  - apply String_as_OT.cmp_lt in Eab, Ebc.
    pose proof (@String_as_OT.lt_trans a b c Eab Ebc) as Hac.
    apply String_as_OT.cmp_lt in Hac.
    unfold String_as_OT.cmp in Hac. rewrite Hac. lia.
Qed.

Lemma codeUnitCompare_range (a b : string) :
  codeUnitCompare a b = -1 \/ codeUnitCompare a b = 0
  \/ codeUnitCompare a b = 1.
Proof. unfold codeUnitCompare. destruct (String.compare a b); auto. Qed.

Lemma codeUnitCompare_zero (a b : string) :
  codeUnitCompare a b = 0 <-> a = b.
Proof.
  unfold codeUnitCompare. pose proof (String_as_OT.cmp_eq a b) as H.
  unfold String_as_OT.cmp in H.
  destruct (String.compare a b); split; intros E; try lia;
    try (apply H; reflexivity); apply H in E; discriminate.
Qed.

Lemma codeUnitCompare_lexicographic (a b : string) :
  codeUnitCompare a b <= 0 -> lexicographic_le a b.
Proof.
  unfold codeUnitCompare, lexicographic_le, String.leb.
  destruct (String.compare a b); [reflexivity | reflexivity | lia].
Qed.

Lemma collationCompare_antisym (a b : string) :
  Z.sgn (collationCompare a b) = - Z.sgn (collationCompare b a).
Proof.
  unfold collationCompare.
  pose proof (codeUnitCompare_antisym
                (JS.toLowerCase_ascii a) (JS.toLowerCase_ascii b)) as Hp.
  pose proof (codeUnitCompare_antisym a b) as Hs.
  destruct (Z.eqb_spec
              (codeUnitCompare (JS.toLowerCase_ascii a) (JS.toLowerCase_ascii b))
              0) as [E1|E1];
    destruct (Z.eqb_spec
                (codeUnitCompare (JS.toLowerCase_ascii b)
                   (JS.toLowerCase_ascii a)) 0) as [E2|E2]; lia.
Qed.

Lemma collationCompare_trans (a b c : string) :
  collationCompare a b <= 0 -> collationCompare b c <= 0 ->
  collationCompare a c <= 0.
Proof.
  unfold collationCompare.
  destruct (Z.eqb_spec
              (codeUnitCompare (JS.toLowerCase_ascii a) (JS.toLowerCase_ascii b))
              0) as [Eab|Eab];
    destruct (Z.eqb_spec
                (codeUnitCompare (JS.toLowerCase_ascii b)
                   (JS.toLowerCase_ascii c)) 0) as [Ebc|Ebc];
    intros Hab Hbc.
  - apply codeUnitCompare_zero in Eab, Ebc.
    rewrite Eab, Ebc.
    rewrite (proj2 (codeUnitCompare_zero _ _) eq_refl). cbn.
    exact (codeUnitCompare_trans _ _ _ Hbc Hab).
  - apply codeUnitCompare_zero in Eab. rewrite Eab.
    destruct (Z.eqb_spec
                (codeUnitCompare (JS.toLowerCase_ascii b)
                   (JS.toLowerCase_ascii c)) 0); [contradiction | exact Hbc].
  - apply codeUnitCompare_zero in Ebc. rewrite <- Ebc.
    destruct (Z.eqb_spec
                (codeUnitCompare (JS.toLowerCase_ascii a)
                   (JS.toLowerCase_ascii b)) 0); [contradiction | exact Hab].
  - pose proof (codeUnitCompare_trans _ _ _ Hab Hbc) as Hac.
    destruct (Z.eqb_spec
                (codeUnitCompare (JS.toLowerCase_ascii a)
                   (JS.toLowerCase_ascii c)) 0) as [Eac|Eac]; [|exact Hac].
    exfalso. apply codeUnitCompare_zero in Eac.
    rewrite <- Eac in Hbc, Ebc.
    pose proof (codeUnitCompare_antisym
                  (JS.toLowerCase_ascii a) (JS.toLowerCase_ascii b)).
    lia.
Qed.

Lemma tools_sort_spec_witness :
  sortedTools codeUnitCompare "name"
    (MockData.tools ++ [tool_b5; tool_a10])
  = ([tool_a10; tool_b5] ++ MockData.tools)%list
  /\ StronglySorted
       (fun a b => codeUnitCompare (Tool.name a) (Tool.name b) <= 0)
       (sortedTools codeUnitCompare "name"
          (MockData.tools ++ [tool_b5; tool_a10]))
  /\ StronglySorted
       (fun a b => lexicographic_le (Tool.name a) (Tool.name b))
       (sortedTools codeUnitCompare "name"
          (MockData.tools ++ [tool_b5; tool_a10])).
Proof.
  pose proof (@tools_sort_spec codeUnitCompare
                codeUnitCompare_antisym codeUnitCompare_trans
                (MockData.tools ++ [tool_b5; tool_a10]))
    as [_ [[_ [Hsorted _]] [_ [_ Hlex]]]].
  exact (conj eq_refl
           (conj Hsorted
              (Hlex (fun a b _ _ => codeUnitCompare_lexicographic
                                      (Tool.name a) (Tool.name b))))).
Defined.

(** C5 as stated fails on a host that collates as browsers do.  The
    comparator [collationCompare] is a consistent one; it puts "a" before
    "B", and so does the name sort of the tools "B", "a" on it and on every
    consistent host that ranks "a" before "B"; in the lexicographic order of
    the code units "B" comes first, and the sorted names are not
    lexicographically non-decreasing. *)
Lemma name_sort_not_lexicographic_on_collating_host :
  (forall a b,
      Z.sgn (collationCompare a b) = - Z.sgn (collationCompare b a))
  /\ (forall a b c,
        collationCompare a b <= 0 -> collationCompare b c <= 0 ->
        collationCompare a c <= 0)
  /\ collationCompare "a" "B" < 0
  /\ sortedTools collationCompare "name" [tool_B; tool_a10]
     = [tool_a10; tool_B]
  /\ (forall localeCompare : string -> string -> Z,
        (forall a b,
            Z.sgn (localeCompare a b) = - Z.sgn (localeCompare b a)) ->
        localeCompare "a" "B" < 0 ->
        sortedTools localeCompare "name" [tool_B; tool_a10]
        = [tool_a10; tool_B])
  /\ lexicographic_le (Tool.name tool_B) (Tool.name tool_a10)
  /\ ~ lexicographic_le (Tool.name tool_a10) (Tool.name tool_B)
  /\ ~ StronglySorted
         (fun a b => lexicographic_le (Tool.name a) (Tool.name b))
         (sortedTools collationCompare "name" [tool_B; tool_a10]).
Proof.
  split; [exact collationCompare_antisym|].
  split; [exact collationCompare_trans|].
  split; [reflexivity|].
  split; [reflexivity|].
  split.
  { intros lc Hanti Hlt. pose proof (Hanti "a" "B") as H.
    unfold sortedTools. cbn -[JS.not_after].
    rewrite by_name_not_after. cbn.
    destruct (Z.leb_spec (lc "B" "a") 0) as [Hle|Hgt]; [lia | reflexivity]. }
  split; [reflexivity|].
  split; [discriminate|].
  intros Hs. inversion Hs as [|x l _ Hall]; subst.
  inversion Hall as [|y l' Hab _]; subst. discriminate Hab.
Qed.

(** ** The two filters *)

Lemma filter_all (A : Type) (l : list A) : filter (fun _ => true) l = l.
Proof. induction l as [|x l IH]; cbn; [|rewrite IH]; reflexivity. Qed.

Lemma filter_filter (A : Type) (p q : A -> bool) (l : list A) :
  filter q (filter p l) = filter (fun x => p x && q x) l.
Proof.
  induction l as [|x l IH]; cbn; [reflexivity|].
  destruct (p x); cbn; [destruct (q x)|]; rewrite IH; reflexivity.
Qed.

Lemma includes_empty (s : string) : JS.includes s "" = true.
Proof. destruct s; reflexivity. Qed.

Lemma truthy_string_false (s : string) : JS.truthy_string s = false -> s = "".
Proof. destruct s; [reflexivity | discriminate]. Qed.

Lemma filteredConnections_filter (flt : string) (conns : list Connection.t) :
  filteredConnections flt conns = filter (spec_connection_kept flt) conns.
Proof.
  unfold filteredConnections, spec_connection_kept.
  destruct (flt =? "all"); cbn.
  - symmetry. apply filter_all.
  - reflexivity.
Qed.

(** C7.  The connections table shows the connections whose status is the
    selected filter, or all of them when the filter is [all], in their
    original order: the result is the input with the other entries left out.
    Of the three sample connections, filter [connected] leaves conn_001 and
    conn_003, in that order. *)
Theorem connections_filter_spec :
  (forall flt conns,
     filteredConnections flt conns = filter (spec_connection_kept flt) conns)
  /\ (forall flt conns c,
        In c (filteredConnections flt conns)
        <-> In c conns /\ (flt = "all" \/ Connection.status c = flt))
  /\ (forall conns, filteredConnections "all" conns = conns)
  /\ filteredConnections "connected" MockData.connections
     = [MockData.conn_001; MockData.conn_003].
Proof.
  repeat apply conj; try reflexivity.
  - apply filteredConnections_filter.
  - intros flt conns c. rewrite filteredConnections_filter, filter_In.
    unfold spec_connection_kept.
    rewrite orb_true_iff, !String.eqb_eq. reflexivity.
Qed.

Lemma prefix_iff (a b : string) :
  String.prefix a b = true <-> exists post, b = a ++ post.
Proof.
  revert b. induction a as [|c a IH]; intros b.
  - split; [intros _; exists b; reflexivity | intros _; destruct b; reflexivity].
  - destruct b as [|c' b]; cbn.
    + split; [discriminate | intros [post H]; discriminate].
    + destruct (ascii_dec c c') as [<- | Hne].
      * rewrite IH. split; intros [post H]; exists post; congruence.
      * split; [discriminate | intros [post H]; congruence].
Qed.

Lemma includes_iff (s sub : string) :
  JS.includes s sub = true <-> exists pre post, s = pre ++ sub ++ post.
Proof.
  induction s as [|c s IH]; cbn [JS.includes]; rewrite orb_true_iff, prefix_iff.
  - split.
    + intros [[post H] | H]; [|discriminate].
      exists "", post. exact H.
    + intros [pre [post H]]. left.
      destruct pre; [exists post; exact H | discriminate].
  - rewrite IH. split.
    + intros [[post H] | [pre [post H]]].
      * exists "", post. exact H.
      * exists (String c pre), post. cbn. rewrite H. reflexivity.
    + intros [pre [post H]]. destruct pre as [|c' pre].
      * left. exists post. exact H.
      * right. exists pre, post. cbn in H. congruence.
Qed.

Section LogsFilterFacts.

Variable toLowerCase : string -> string.

Lemma filteredLogs_filter (search level : string) (logs : list LogEntry.t) :
  filteredLogs toLowerCase search level logs
  = filter (spec_log_kept toLowerCase search level) logs.
Proof.
  unfold filteredLogs, spec_log_kept, spec_level_matches,
    spec_contains_ignoring_case.
  destruct (JS.truthy_string (toLowerCase search)) eqn:Hs.
  - destruct (level =? "all"); cbn; [reflexivity | apply filter_filter].
  - rewrite (truthy_string_false _ Hs).
    destruct (level =? "all"); cbn.
    + symmetry. erewrite filter_ext; [apply filter_all|].
      intros log. apply includes_empty.
    + apply filter_ext. intros log. rewrite includes_empty, andb_true_r.
      reflexivity.
Qed.

(** On strings of the ASCII range the host's [toLowerCase] works character
    by character. *)
Hypothesis toLowerCase_ascii :
  forall s, JS.is_ascii s = true -> toLowerCase s = JS.toLowerCase_ascii s.


End LogsFilterFacts.


(** ** The pipeline on array objects *)

Section StoreFacts.

Variable A : Type.
Implicit Types (h : Store.t A) (l : list A) (r : Store.ArrayRef).

Lemma read_alloc_old h l r l0 :
  Store.read h r = Some l0 -> Store.read (snd (Store.alloc l h)) r = Some l0.
Proof.
  unfold Store.read, Store.alloc. cbn. intros H.
  rewrite nth_error_app1; [exact H|].
  apply nth_error_Some. congruence.
Qed.

Lemma read_alloc_new h l :
  Store.read (snd (Store.alloc l h)) (fst (Store.alloc l h)) = Some l.
Proof.
  unfold Store.read, Store.alloc. cbn.
  rewrite nth_error_app2, Nat.sub_diag by apply Nat.le_refl. reflexivity.
Qed.

Lemma alloc_fresh h l : Store.fresh h (fst (Store.alloc l h)).
Proof.
  unfold Store.fresh, Store.read, Store.alloc. cbn.
  apply nth_error_None, Nat.le_refl.
Qed.

Lemma alloc_extends h l : Store.extends h (snd (Store.alloc l h)).
Proof. intros r l0. apply read_alloc_old. Qed.

Lemma extends_refl h : Store.extends h h.
Proof. intros r l H. exact H. Qed.

Lemma extends_trans h1 h2 h3 :
  Store.extends h1 h2 -> Store.extends h2 h3 -> Store.extends h1 h3.
Proof. intros H12 H23 r l H. apply H23, H12, H. Qed.

Lemma fresh_extends h h' r :
  Store.extends h h' -> Store.fresh h' r -> Store.fresh h r.
Proof.
  unfold Store.fresh. intros Hext Hr.
  destruct (Store.read h r) as [l|] eqn:E; [|reflexivity].
  rewrite (Hext r l E) in Hr. discriminate.
Qed.

(** Writing the array allocated last touches no other. *)
Lemma write_last h l l' :
  Store.write (List.length h) l' (h ++ [l])%list = (h ++ [l'])%list.
Proof. induction h as [|x h IH]; cbn; [|rewrite IH]; reflexivity. Qed.

Lemma Array_filter_spec (p : A -> bool) h r l :
  Store.read h r = Some l ->
  exists out h',
    Store.Array_filter p r h = Some (out, h')
    /\ Store.extends h h' /\ Store.fresh h out
    /\ Store.read h' out = Some (filter p l).
Proof.
  intros Hr. unfold Store.Array_filter. rewrite Hr.
  exists (fst (Store.alloc (filter p l) h)), (snd (Store.alloc (filter p l) h)).
  repeat split.
  - apply alloc_extends.
  - apply alloc_fresh.
  - apply read_alloc_new.
Qed.

(** [[...a].sort(comparefn)]: the copy is sorted, the original stays. *)
Lemma spread_sort_spec (comparefn : A -> A -> Q) h r l :
  Store.read h r = Some l ->
  exists out h1 h',
    Store.Array_spread r h = Some (out, h1)
    /\ Store.Array_sort comparefn out h1 = Some (out, h')
    /\ Store.extends h h1 /\ Store.extends h h' /\ Store.fresh h out
    /\ Store.read h1 out = Some l
    /\ Store.read h' out = Some (JS.Array_sort comparefn l).
Proof.
  intros Hr. unfold Store.Array_spread, Store.Array_sort. rewrite Hr.
  exists (List.length h), (h ++ [l])%list,
    (h ++ [JS.Array_sort comparefn l])%list.
  pose proof (read_alloc_new h l) as Hnew.
  unfold Store.alloc in *. cbn [fst snd] in *.
  rewrite Hnew, write_last.
  repeat split.
  - apply (alloc_extends h l).
  - apply (alloc_extends h (JS.Array_sort comparefn l)).
  - apply (alloc_fresh h l).
  - apply (read_alloc_new h (JS.Array_sort comparefn l)).
Qed.

End StoreFacts.

Lemma updateConnectionsTable_spec
    (flt : string) (h : Store.t Connection.t) (conns : Store.ArrayRef)
    (l : list Connection.t) :
  Store.read h conns = Some l ->
  exists out h',
    updateConnectionsTable flt conns h = Some (out, h')
    /\ Store.extends h h'
    /\ Store.read h' out = Some (filteredConnections flt l)
    /\ (flt <> "all" -> Store.fresh h out)
    /\ (flt = "all" -> out = conns /\ h' = h).
Proof.
  intros Hr. unfold updateConnectionsTable, filteredConnections.
  destruct (String.eqb_spec flt "all") as [E|E]; cbn.
  - exists conns, h. repeat split; trivial.
    + apply extends_refl.
    + intros HE. contradiction.
  - destruct (Array_filter_spec
                (fun conn => Connection.status conn =? flt) h conns Hr)
      as [out [h' [Hf [Hext [Hfresh Hout]]]]].
    exists out, h'. repeat split; trivial; try (intros HE; contradiction);
      try contradiction.
Qed.

Lemma updateToolsGrid_spec
    (localeCompare : string -> string -> Z) (sortBy : string)
    (h : Store.t Tool.t) (tools : Store.ArrayRef) (l : list Tool.t) :
  Store.read h tools = Some l ->
  exists out h',
    updateToolsGrid localeCompare sortBy tools h = Some (out, h')
    /\ Store.extends h h'
    /\ Store.read h' out = Some (sortedTools localeCompare sortBy l)
    /\ Store.fresh h out.
Proof.
  intros Hr. unfold updateToolsGrid, sortedTools.
  assert (forall comparefn,
            exists out h',
              match Store.Array_spread tools h with
              | Some (sortedTools, h) =>
                  Store.Array_sort comparefn sortedTools h
              | None => None
              end = Some (out, h')
              /\ Store.extends h h'
              /\ Store.read h' out = Some (JS.Array_sort comparefn l)
              /\ Store.fresh h out) as Hsorted.
  { intros comparefn.
    destruct (spread_sort_spec comparefn h tools Hr)
      as [out [h1 [h' [Hs [Hsort [_ [Hext [Hfresh [_ Hout]]]]]]]]].
    rewrite Hs, Hsort. exists out, h'. repeat split; trivial. }
  destruct (sortBy =? "calls"); [apply Hsorted|].
  destruct (sortBy =? "name"); [apply Hsorted|].
  destruct (sortBy =? "success"); [apply Hsorted|].
  destruct (spread_sort_spec by_calls h tools Hr)
    as [out [h1 [h' [Hs [_ [Hext [_ [Hfresh [Hout _]]]]]]]]].
  rewrite Hs. exists out, h1. repeat split; trivial.
Qed.

Lemma updateLogsContainer_spec
    (toLowerCase : string -> string) (search level : string)
    (h : Store.t LogEntry.t) (logs : Store.ArrayRef) (l : list LogEntry.t) :
  Store.read h logs = Some l ->
  exists out h',
    updateLogsContainer toLowerCase search level logs h = Some (out, h')
    /\ Store.extends h h'
    /\ Store.read h' out = Some (filteredLogs toLowerCase search level l)
    /\ (level <> "all" \/ toLowerCase search <> "" -> Store.fresh h out)
    /\ (level = "all" -> toLowerCase search = "" -> out = logs /\ h' = h).
Proof.
  intros Hr. unfold updateLogsContainer, filteredLogs.
  assert (exists out1 h1,
            (if negb (level =? "all")
             then Store.Array_filter
                    (fun log => LogEntry.level log =? level) logs h
             else Some (logs, h)) = Some (out1, h1)
            /\ Store.extends h h1
            /\ Store.read h1 out1
               = Some (if negb (level =? "all")
                       then filter (fun log => LogEntry.level log =? level) l
                       else l)
            /\ (level <> "all" -> Store.fresh h out1)
            /\ (level = "all" -> out1 = logs /\ h1 = h))
    as [out1 [h1 [H1 [Hext1 [Hout1 [Hfresh1 Hsame1]]]]]].
  { destruct (String.eqb_spec level "all") as [E|E]; cbn.
    - exists logs, h. repeat split; trivial.
      + apply extends_refl.
      + intros HE. contradiction.
    - destruct (Array_filter_spec
                  (fun log => LogEntry.level log =? level) h logs Hr)
        as [out [h' [Hf [Hext [Hfresh Hout]]]]].
      exists out, h'. repeat split; trivial; try (intros HE; contradiction);
      try contradiction. }
  rewrite H1.
  destruct (JS.truthy_string (toLowerCase search)) eqn:Hs.
  - destruct (Array_filter_spec
                (fun log =>
                   JS.includes (toLowerCase (LogEntry.message log))
                     (toLowerCase search)) h1 out1 Hout1)
      as [out [h' [Hf [Hext [Hfresh Hout]]]]].
    exists out, h'.
    refine (conj Hf (conj _ (conj Hout (conj _ _)))).
    + exact (extends_trans Hext1 Hext).
    + intros _. exact (fresh_extends Hext1 Hfresh).
    + intros _ Hempty. rewrite Hempty in Hs. discriminate.
  - exists out1, h1.
    refine (conj eq_refl (conj Hext1 (conj Hout1 (conj _ _)))).
    + intros [Hl | Hne]; [exact (Hfresh1 Hl)|].
      elim Hne. apply truthy_string_false, Hs.
    + intros Hl _. apply (Hsame1 Hl).
Qed.

(** C8 (as amended).  Each pipeline function leaves its input collection,
    and every other array that existed before the call, with the same
    elements in the same order.  The tools sort always works on a newly
    allocated copy.  The connections filter returns a newly allocated array
    when a status is selected, and the logs filter when a level is selected
    or the search text is not empty; with filter [all] (and, for the logs, an
    empty search text) the result is the input array itself. *)
Theorem pipeline_leaves_input_unchanged :
  (forall flt h conns l,
     Store.read h conns = Some l ->
     exists out h',
       updateConnectionsTable flt conns h = Some (out, h')
       /\ Store.read h' conns = Some l
       /\ Store.extends h h'
       /\ Store.read h' out = Some (filteredConnections flt l)
       /\ (flt <> "all" -> Store.fresh h out)
       /\ (flt = "all" -> out = conns /\ h' = h))
  /\ (forall localeCompare sortBy h tools l,
        Store.read h tools = Some l ->
        exists out h',
          updateToolsGrid localeCompare sortBy tools h = Some (out, h')
          /\ Store.read h' tools = Some l
          /\ Store.extends h h'
          /\ Store.read h' out = Some (sortedTools localeCompare sortBy l)
          /\ Store.fresh h out)
  /\ (forall toLowerCase search level h logs l,
        Store.read h logs = Some l ->
        exists out h',
          updateLogsContainer toLowerCase search level logs h = Some (out, h')
          /\ Store.read h' logs = Some l
          /\ Store.extends h h'
          /\ Store.read h' out
             = Some (filteredLogs toLowerCase search level l)
          /\ (level <> "all" \/ toLowerCase search <> "" -> Store.fresh h out)
          /\ (level = "all" -> toLowerCase search = "" ->
              out = logs /\ h' = h)).
Proof.
  repeat apply conj.
  - intros flt h conns l Hr.
    destruct (updateConnectionsTable_spec flt h conns Hr)
      as [out [h' [Hf [Hext Hrest]]]].
    exists out, h'. exact (conj Hf (conj (Hext _ _ Hr) (conj Hext Hrest))).
  - intros lc sortBy h tools l Hr.
    destruct (updateToolsGrid_spec lc sortBy h tools Hr)
      as [out [h' [Hf [Hext Hrest]]]].
    exists out, h'. exact (conj Hf (conj (Hext _ _ Hr) (conj Hext Hrest))).
  - intros tl search level h logs l Hr.
    destruct (updateLogsContainer_spec tl search level h logs Hr)
      as [out [h' [Hf [Hext Hrest]]]].
    exists out, h'. exact (conj Hf (conj (Hext _ _ Hr) (conj Hext Hrest))).
Qed.

Lemma pipeline_leaves_input_unchanged_witness :
  exists out h',
    updateToolsGrid codeUnitCompare "success" 0%nat tools_store = Some (out, h')
    /\ Store.read h' 0%nat = Some MockData.tools
    /\ Store.fresh tools_store out.
Proof.
  destruct (proj1 (proj2 pipeline_leaves_input_unchanged)
              codeUnitCompare "success" tools_store 0%nat MockData.tools eq_refl)
    as [out [h' [Hf [Hin [_ [_ Hfresh]]]]]].
  exists out, h'. repeat split; assumption.
Defined.

(** C8 as stated fails: with filter [all] the connections table works on the
    input array itself, and so does the log view with level [all] and an
    empty search text; neither is a new sequence. *)
Lemma pipeline_all_returns_input_itself :
  updateConnectionsTable "all" 0%nat connections_store
    = Some (0%nat, connections_store)
  /\ ~ Store.fresh connections_store 0%nat
  /\ updateLogsContainer JS.toLowerCase_ascii "" "all" 0%nat logs_store
     = Some (0%nat, logs_store)
  /\ ~ Store.fresh logs_store 0%nat.
Proof. repeat split; try reflexivity; discriminate. Qed.

(* ====================================================================== *)
(** * Worked examples *)
(* ====================================================================== *)

Example checkHealth_healthy :
  result (checkHealth healthy_net) live_world
  = JS.Return {| success := true; responseTime := Some 8;
                 data := Some (PJson "{status: ok}"); error := None |}.
Proof. reflexivity. Qed.

Example checkHealth_offline :
  result (checkHealth offline_net) live_world
  = JS.Return (health_failure "Failed to fetch").
Proof. reflexivity. Qed.

Example testConnection_failed_probe :
  result (on_testConnection_click offline_net "http://example.test:9000")
    live_world
  = JS.Return "Connection failed: Failed to fetch"
  /\ AppState.apiEndpoint
       (app (exec (on_testConnection_click offline_net "http://example.test:9000")
               live_world))
     = "http://localhost:8000"
  /\ requests
       (exec (on_testConnection_click offline_net "http://example.test:9000")
          live_world)
     = ["http://example.test:9000/health"].
Proof. repeat split; reflexivity. Qed.

Example testConnection_successful_probe :
  result (on_testConnection_click healthy_net "http://example.test:9000")
    live_world
  = JS.Return "Connection successful! Response time: 8ms"
  /\ AppState.apiEndpoint
       (app (exec (on_testConnection_click healthy_net "http://example.test:9000")
               live_world))
     = "http://example.test:9000".
Proof. split; reflexivity. Qed.

Example fetchTools_live_server_down :
  fetchTools offline_net live_world
  = (JS.Return (PTools MockData.tools),
     {| app := app live_world; clock := 30;
        requests := ["http://localhost:8000/api/tools"];
        console := [Warn "API call failed, using mock data:"
                      {| JS.message := "Failed to fetch" |}];
        timers := []; next_timer_id := 1 |}).
Proof. reflexivity. Qed.

Example sortedTools_mock_by_name :
  sortedTools codeUnitCompare "name" (rev MockData.tools) = MockData.tools.
Proof. reflexivity. Qed.

Example sortedTools_mock_by_success :
  sortedTools codeUnitCompare "success" (rev MockData.tools) = MockData.tools.
Proof. reflexivity. Qed.

Example sortedTools_ties_keep_input_order :
  map Tool.description
    (sortedTools codeUnitCompare "success"
       [tool_b5; tool_a10; nth 0 MockData.tools tool_b5])
  = ["Web search using Tavily API"; ""; ""]
  /\ map Tool.name
       (sortedTools codeUnitCompare "success"
          [tool_b5; tool_a10; nth 0 MockData.tools tool_b5])
     = ["tavily-search"; "b"; "a"].
Proof. split; reflexivity. Qed.

Example startAutoRefresh_from_initial :
  timers (exec startAutoRefresh initial_world)
  = [{| timer_id := 1; period := 5000; created := 0 |}]
  /\ AppState.refreshInterval (app (exec startAutoRefresh initial_world))
     = Some 1
  /\ timers (exec startAutoRefresh (exec startAutoRefresh initial_world))
     = [{| timer_id := 2; period := 5000; created := 0 |}]
  /\ timers (exec stopAutoRefresh (exec startAutoRefresh initial_world)) = [].
Proof. repeat split; reflexivity. Qed.

Example formatDuration_sample_connections :
  map (fun c => formatDuration (Connection.duration_seconds c))
    MockData.connections
  = ["1h 0m"; "30m 0s"; "15m 0s"].
Proof. reflexivity. Qed.

(* ====================================================================== *)
(** * Further properties: the data source adapter *)
(* ====================================================================== *)

(** X1.  Outside demo mode, when the response has a success status and its
    body parses, each fetch function returns the parsed document as it is,
    whatever its shape: nothing checks it against the collection asked for.
    The call issues the one request and logs nothing. *)
Theorem fetch_success_returns_server_data
    (net : Network) (kind : ResourceKind) (w : World) (d : Payload) :
  AppState.demoMode (app w) = false ->
  respond net (resource_url w kind) = Response true (JsonOk d) ->
  fetchResource net kind w
  = (JS.Return d,
     {| app := app w;
        clock := clock w + latency net (resource_url w kind);
        requests := (requests w ++ [resource_url w kind])%list;
        console := console w;
        timers := timers w;
        next_timer_id := next_timer_id w |}).
Proof.
  intros Hlive. unfold resource_url.
  destruct kind; cbn;
    unfold fetchMetrics, fetchConnections, fetchTools, fetchLogs, bind, get_app,
      try_catch, fetch, response_json, response_ok, ret;
    rewrite Hlive; cbn; intros Hr; rewrite Hr; reflexivity.
Qed.

Lemma fetch_success_returns_server_data_witness :
  result (fetchResource healthy_net metrics) live_world
  = JS.Return (PJson "{status: ok}").
Proof.
  unfold result.
  rewrite (fetch_success_returns_server_data healthy_net metrics live_world
             (d := PJson "{status: ok}") eq_refl eq_refl).
  reflexivity.
Defined.

(** X2.  Outside demo mode, a response with a success status whose body does
    not parse as JSON is treated as a failed call: the fetch function returns
    the mock value and warns on the console with the parser's message. *)
Theorem fetch_unparsable_body_returns_mock
    (net : Network) (kind : ResourceKind) (w : World) (msg : string) :
  AppState.demoMode (app w) = false ->
  respond net (resource_url w kind) = Response true (JsonSyntaxError msg) ->
  result (fetchResource net kind) w = JS.Return (mock_of kind)
  /\ console (exec (fetchResource net kind) w)
     = (console w ++ [Warn "API call failed, using mock data:"
                        {| JS.message := msg |}])%list
  /\ requests (exec (fetchResource net kind) w)
     = (requests w ++ [resource_url w kind])%list.
Proof.
  intros Hlive. unfold resource_url, result, exec.
  destruct kind; cbn;
    unfold fetchMetrics, fetchConnections, fetchTools, fetchLogs, bind, get_app,
      try_catch, fetch, response_json, response_ok, console_warn, ret, throw;
    rewrite Hlive; cbn; intros Hr; rewrite Hr; cbn; repeat split.
Qed.

Lemma fetch_unparsable_body_returns_mock_witness :
  result (fetchResource plain_text_net tools) live_world
  = JS.Return (PTools MockData.tools).
Proof.
  exact (proj1 (fetch_unparsable_body_returns_mock plain_text_net tools
                  live_world eq_refl eq_refl)).
Defined.

(* ====================================================================== *)
(** * Further properties: the test-connection button *)
(* ====================================================================== *)

(** The handler is its two halves around the probe. *)
Lemma on_testConnection_click_phases
    (net : Network) (input : string) (w : World) :
  on_testConnection_click net input w
  = (originalEndpoint <- testConnection_before_await input ;;
     r <- checkHealth net ;;
     testConnection_after_await originalEndpoint r) w.
Proof. reflexivity. Qed.

Lemma testConnection_before_await_spec (input : string) (w : World) :
  testConnection_before_await input w
  = (JS.Return (AppState.apiEndpoint (app w)), probing_world input w).
Proof. reflexivity. Qed.

Lemma testConnection_after_await_failed
    (original : string) (r : HealthResult) (w : World) :
  success r = false ->
  exec (testConnection_after_await original r) w
  = with_app (AppState.set_apiEndpoint original (app w)) w.
Proof.
  intros Hr. unfold testConnection_after_await. rewrite Hr. reflexivity.
Qed.

(** X3.  With the input field empty the test probes the configured endpoint,
    and whatever the probe says the application state ends as it began. *)
Theorem test_connection_empty_input (net : Network) (w : World) :
  requests (exec (on_testConnection_click net "") w)
  = (requests w ++ [health_url w])%list
  /\ app (exec (on_testConnection_click net "") w) = app w.
Proof.
  destruct (on_testConnection_click_cases net "" w) as [r [Hr Hw]].
  cbn zeta in Hw. rewrite Hw. clear Hw Hr.
  assert (probing_world "" w = w) as Hsame
      by (destruct w as [[] ]; reflexivity).
  rewrite Hsame. unfold exec. rewrite checkHealth_cases. cbn.
  split.
  - destruct (success r); reflexivity.
  - destruct (success r); [reflexivity|]. cbn. destruct w as [[] ]; reflexivity.
Qed.

(** X4.  A click on the test-connection button never throws, and the text it
    shows is complete: on success the measured time of the probe, on failure
    the message of the error; neither is ever missing. *)
Theorem test_connection_message (net : Network) (input : string) (w : World) :
  let url := health_url (probing_world input w) in
  result (on_testConnection_click net input) w
  = JS.Return
      match respond net url with
      | Response true (JsonOk _) =>
          "Connection successful! Response time: "
          ++ JS.Number_toString (latency net url) ++ "ms"
      | Response true (JsonSyntaxError msg) => "Connection failed: " ++ msg
      | Response false _ => "Connection failed: Health check failed"
      | NetworkError msg => "Connection failed: " ++ msg
      end.
Proof.
  cbn zeta. unfold result. rewrite on_testConnection_click_phases.
  unfold bind. rewrite testConnection_before_await_spec, checkHealth_cases.
  destruct (respond net (health_url (probing_world input w)))
    as [msg|[|] [d|msg]]; reflexivity.
Qed.

(** X5.  Two tests whose probes overlap can commit a candidate that failed.
    The second click starts while the first probe is pending, so the
    endpoint it saves for its roll-back is the candidate of the first.  When
    both probes fail, the first roll-back restores the configured endpoint,
    and the second one then writes the candidate back.  (Between the four
    steps anything may happen that leaves [AppState] alone.) *)
Theorem overlapping_tests_commit_failed_candidate
    (input : string) (r1 r2 : HealthResult) (w wa wb wc : World) :
  JS.truthy_string input = true ->
  success r1 = false ->
  success r2 = false ->
  app wa = app (exec (testConnection_before_await input) w) ->
  app wb = app (exec (testConnection_before_await input) wa) ->
  app wc
  = app (exec (testConnection_after_await (AppState.apiEndpoint (app w)) r1) wb) ->
  result (testConnection_before_await input) w
  = JS.Return (AppState.apiEndpoint (app w))
  /\ result (testConnection_before_await input) wa = JS.Return input
  /\ AppState.apiEndpoint (app wb) = input
  /\ AppState.apiEndpoint (app wc) = AppState.apiEndpoint (app w)
  /\ AppState.apiEndpoint
       (app (exec (testConnection_after_await (AppState.apiEndpoint (app wa)) r2)
               wc))
     = input.
Proof.
  intros Hin Hr1 Hr2 Ha Hb Hc.
  rewrite testConnection_after_await_failed in Hc by exact Hr1.
  rewrite testConnection_after_await_failed by exact Hr2.
  unfold exec, result in *. rewrite !testConnection_before_await_spec in *.
  cbn in *.
  assert (AppState.apiEndpoint (app wa) = input) as Hep.
  { rewrite Ha. cbn. unfold JS.or_string. rewrite Hin. reflexivity. }
  rewrite Hep, Hc, Hb. cbn. unfold JS.or_string. rewrite Hin.
  repeat split; reflexivity.
Qed.

Lemma overlapping_tests_commit_failed_candidate_witness :
  let input := "http://down.test" in
  let r := health_failure "Failed to fetch" in
  let w1 := exec (testConnection_before_await input) live_world in
  let w2 := exec (testConnection_before_await input) w1 in
  let w3 :=
    exec (testConnection_after_await
            (AppState.apiEndpoint (app live_world)) r) w2 in
  let w4 :=
    exec (testConnection_after_await (AppState.apiEndpoint (app w1)) r) w3 in
  AppState.apiEndpoint (app w3) = "http://localhost:8000"
  /\ AppState.apiEndpoint (app w4) = "http://down.test".
Proof.
  cbn zeta.
  pose proof
    (@overlapping_tests_commit_failed_candidate
       "http://down.test"
       (health_failure "Failed to fetch") (health_failure "Failed to fetch")
       live_world _ _ _ eq_refl eq_refl eq_refl eq_refl eq_refl eq_refl)
    as [_ [_ [_ [H3 H4]]]].
  split; [exact H3 | exact H4].
Defined.

(* ====================================================================== *)
(** * Further properties: the auto-refresh scheduler *)
(* ====================================================================== *)

Lemma with_app_sched_inv (a : AppState.t) (w : World) :
  AppState.refreshInterval a = AppState.refreshInterval (app w) ->
  sched_inv w -> sched_inv (with_app a w).
Proof.
  intros Hh Hinv. apply (@sched_inv_same_timers w (with_app a w)); trivial.
Qed.

Lemma on_autoRefresh_change_exec (checked : bool) (w : World) :
  exec (on_autoRefresh_change checked) w
  = exec (if checked then startAutoRefresh else stopAutoRefresh)
      (with_app (AppState.set_autoRefresh checked (app w)) w).
Proof. destruct checked; reflexivity. Qed.

Lemma on_refreshRate_change_exec (value : Z) (w : World) :
  exec (on_refreshRate_change value) w
  = if AppState.autoRefresh (app w)
    then exec startAutoRefresh
           (with_app (AppState.set_refreshRate value (app w)) w)
    else with_app (AppState.set_refreshRate value (app w)) w.
Proof.
  unfold on_refreshRate_change, exec, bind, get_app, put_app. cbn.
  destruct (AppState.autoRefresh (app w)); reflexivity.
Qed.

(** X6.  Switching auto-refresh off and on again, with the refresh rate
    left alone, resumes at the same cadence: off leaves no timer live and
    clears the handle; on sets exactly one timer whose period is the refresh
    rate, so the dispatcher is again called once per period. *)
Theorem toggle_off_on_same_cadence (w : World) :
  reachable w ->
  0 < AppState.refreshRate (app w) ->
  let off := exec (on_autoRefresh_change false) w in
  let on := exec (on_autoRefresh_change true) off in
  timers off = []
  /\ AppState.autoRefresh (app off) = false
  /\ AppState.refreshRate (app on) = AppState.refreshRate (app w)
  /\ (exists t, timers on = [t]
        /\ period t = AppState.refreshRate (app w)
        /\ created t = clock w
        /\ AppState.refreshInterval (app on) = Some (timer_id t))
  /\ forall k, 0 <= k ->
       dispatcher_calls on
         (clock w + k * AppState.refreshRate (app w))
         (clock w + (k + 1) * AppState.refreshRate (app w)) = 1.
Proof.
  intros Hw Hrate. cbn zeta. rewrite !on_autoRefresh_change_exec.
  cbv iota. pose proof (reachable_inv Hw) as Hinv.
  set (w0 := with_app (AppState.set_autoRefresh false (app w)) w).
  assert (sched_inv w0) as Hinv0 by (apply with_app_sched_inv; trivial).
  destruct (stopAutoRefresh_timers Hinv0) as [Hoff_t _].
  pose proof (stopAutoRefresh_inv Hinv0) as Hinv1.
  set (off := exec stopAutoRefresh w0) in *.
  assert (AppState.autoRefresh (app off) = false
          /\ AppState.refreshRate (app off) = AppState.refreshRate (app w)
          /\ clock off = clock w) as [Hoff_a [Hoff_r Hoff_c]].
  { unfold off, stopAutoRefresh, exec, bind, get_app. cbn.
    destruct (truthy_handle (AppState.refreshInterval (app w)));
      repeat split. }
  set (w2 := with_app (AppState.set_autoRefresh true (app off)) off).
  assert (sched_inv w2) as Hinv2 by (apply with_app_sched_inv; trivial).
  destruct (startAutoRefresh_timers Hinv2) as [Hon_t [_ [Hon_a _]]].
  cbn in Hon_t, Hon_a.
  assert (fresh_timer w2
          = {| timer_id := next_timer_id w2;
               period := AppState.refreshRate (app w);
               created := clock w |}) as Hfresh.
  { unfold fresh_timer. f_equal; [exact Hoff_r | exact Hoff_c]. }
  rewrite Hfresh in Hon_t.
  split; [exact Hoff_t|]. split; [exact Hoff_a|].
  rewrite Hon_t, Hon_a.
  split; [exact Hoff_r|]. split.
  - eexists. split; [reflexivity|]. repeat split.
  - intros k Hk. unfold dispatcher_calls.
    rewrite Hon_t. cbn [fold_right].
    match goal with
    | |- fired_by ?t _ - fired_by ?t _ + 0 = 1 =>
        pose proof (@fired_by_window t k) as Hwin
    end.
    cbn [period created] in Hwin. specialize (Hwin Hrate Hk).
    rewrite Hwin. reflexivity.
Qed.

Lemma toggle_off_on_same_cadence_witness :
  let w := exec startAutoRefresh initial_world in
  let on :=
    exec (on_autoRefresh_change true) (exec (on_autoRefresh_change false) w) in
  timers (exec (on_autoRefresh_change false) w) = []
  /\ dispatcher_calls on 0 5000 = 1.
Proof.
  cbn zeta.
  assert (reachable (exec startAutoRefresh initial_world)) as Hw
      by (eapply reach_step; [apply reach_init | apply step_start]).
  destruct (toggle_off_on_same_cadence Hw eq_refl) as [Hoff [_ [_ [_ Hcalls]]]].
  split; [exact Hoff | exact (Hcalls 0 ltac:(lia))].
Defined.

(** X7.  A new refresh rate takes effect at once.  With auto-refresh on, the
    handler replaces the live timer by one whose period is the new rate, set
    at the time of the change; with auto-refresh off it stores the rate and
    touches no timer. *)
Theorem refresh_rate_change_takes_effect (value : Z) (w : World) :
  reachable w ->
  let w' := exec (on_refreshRate_change value) w in
  AppState.refreshRate (app w') = value
  /\ (AppState.autoRefresh (app w) = true ->
        timers w'
        = [{| timer_id := next_timer_id w; period := value;
              created := clock w |}]
        /\ AppState.refreshInterval (app w') = Some (next_timer_id w))
  /\ (AppState.autoRefresh (app w) = false ->
        timers w' = timers w
        /\ AppState.refreshInterval (app w')
           = AppState.refreshInterval (app w)).
Proof.
  intros Hw. cbn zeta. rewrite on_refreshRate_change_exec.
  pose proof (reachable_inv Hw) as Hinv.
  set (w1 := with_app (AppState.set_refreshRate value (app w)) w).
  assert (sched_inv w1) as Hinv1 by (apply with_app_sched_inv; trivial).
  destruct (startAutoRefresh_timers Hinv1) as [Ht [_ [Ha _]]].
  cbn in Ht, Ha.
  destruct (AppState.autoRefresh (app w)).
  - rewrite Ht, Ha. repeat split; intros; discriminate.
  - repeat split; intros; discriminate.
Qed.

Lemma refresh_rate_change_takes_effect_witness :
  timers (exec (on_refreshRate_change 1000) (exec startAutoRefresh initial_world))
  = [{| timer_id := 2; period := 1000; created := 0 |}].
Proof.
  assert (reachable (exec startAutoRefresh initial_world)) as Hw
      by (eapply reach_step; [apply reach_init | apply step_start]).
  exact (proj1 (proj1 (proj2 (refresh_rate_change_takes_effect 1000 Hw))
                  eq_refl)).
Defined.

(** X8.  [startAutoRefresh] never resets the handle.  Called with
    auto-refresh off it cancels the live timer and leaves [AppState] as it
    was, so [AppState.refreshInterval] may go on holding the handle of a
    timer that is gone; [stopAutoRefresh] is what clears it. *)
Theorem start_when_off_keeps_stale_handle (w : World) :
  reachable w ->
  AppState.autoRefresh (app w) = false ->
  app (exec startAutoRefresh w) = app w
  /\ timers (exec startAutoRefresh w) = []
  /\ (truthy_handle (AppState.refreshInterval (app w)) = true ->
      AppState.refreshInterval (app (exec stopAutoRefresh w)) = None).
Proof.
  intros Hw Hoff. pose proof (reachable_inv Hw) as Hinv.
  destruct (startAutoRefresh_timers Hinv) as [Ht [_ [Ha _]]].
  destruct (stopAutoRefresh_timers Hinv) as [_ [_ [_ Hstop]]].
  rewrite Hoff in Ht, Ha. repeat split; assumption.
Qed.

Lemma start_when_off_keeps_stale_handle_witness :
  let w :=
    with_app
      (AppState.set_autoRefresh false (app (exec startAutoRefresh initial_world)))
      (exec startAutoRefresh initial_world) in
  AppState.refreshInterval (app (exec startAutoRefresh w)) = Some 1
  /\ timers (exec startAutoRefresh w) = [].
Proof.
  cbn zeta.
  set (w0 := exec startAutoRefresh initial_world).
  assert (reachable (with_app (AppState.set_autoRefresh false (app w0)) w0))
    as Hw.
  { eapply reach_step; [eapply reach_step; [apply reach_init | apply step_start]|].
    apply step_other; reflexivity. }
  destruct (start_when_off_keeps_stale_handle Hw eq_refl) as [Ha [Ht _]].
  split; [rewrite Ha; reflexivity | exact Ht].
Defined.

Lemma ui_step_sched_step (w w' : World) : ui_step w w' -> sched_step w w'.
Proof.
  destruct 1 as [w value | w checked | w w' Ht Hn Hh _ _].
  - apply step_rate.
  - apply step_toggle.
  - apply step_other; assumption.
Qed.

Lemma ui_reachable_reachable (w : World) : ui_reachable w -> reachable w.
Proof.
  induction 1 as [w Hw | w w' _ IH Hstep].
  - eapply reach_step; [exact Hw | apply step_start].
  - eapply reach_step; [exact IH | apply ui_step_sched_step, Hstep].
Qed.

Lemma startAutoRefresh_cadence (w : World) :
  sched_inv w -> cadence_inv (exec startAutoRefresh w).
Proof.
  intros Hinv. destruct (startAutoRefresh_timers Hinv) as [Ht [_ [Ha _]]].
  unfold cadence_inv. rewrite Ht, Ha.
  destruct (AppState.autoRefresh (app w)) eqn:Hon; cbn; rewrite Hon.
  - exists (fresh_timer w). repeat split.
  - reflexivity.
Qed.

(** X9.  Once [initializeApp] has started the scheduler, and as long as the
    refresh rate and the auto-refresh flag change through their two settings
    handlers only, a timer is live exactly when auto-refresh is on, it is the
    one [AppState.refreshInterval] holds, and its period is the configured
    refresh rate. *)
Theorem ui_keeps_cadence (w : World) : ui_reachable w -> cadence_inv w.
Proof.
  induction 1 as [w Hw | w w' Hreach IH Hstep].
  - apply startAutoRefresh_cadence, reachable_inv, Hw.
  - pose proof (reachable_inv (ui_reachable_reachable Hreach)) as Hinv.
    destruct Hstep as [w value | w checked | w w' Ht Hn Hh Ha Hr].
    + rewrite on_refreshRate_change_exec.
      destruct (AppState.autoRefresh (app w)) eqn:Hon.
      * apply startAutoRefresh_cadence, with_app_sched_inv; trivial.
      * unfold cadence_inv in *. cbn. rewrite Hon in *. exact IH.
    + rewrite on_autoRefresh_change_exec.
      set (w1 := with_app (AppState.set_autoRefresh checked (app w)) w).
      assert (sched_inv w1) as Hinv1 by (apply with_app_sched_inv; trivial).
      destruct checked.
      * apply startAutoRefresh_cadence, Hinv1.
      * destruct (stopAutoRefresh_timers Hinv1) as [Hstop _].
        assert (AppState.autoRefresh (app (exec stopAutoRefresh w1)) = false)
          as Hoff.
        { unfold w1, stopAutoRefresh, exec, bind, get_app. cbn.
          destruct (truthy_handle (AppState.refreshInterval (app w)));
            reflexivity. }
        unfold cadence_inv. rewrite Hoff. exact Hstop.
    + unfold cadence_inv in *. rewrite Ha, Ht, Hr, Hh. exact IH.
Qed.

Lemma ui_keeps_cadence_witness :
  cadence_inv
    (exec (on_refreshRate_change 10000)
       (exec (on_autoRefresh_change true)
          (exec (on_autoRefresh_change false)
             (exec startAutoRefresh initial_world)))).
Proof.
  apply ui_keeps_cadence.
  eapply ui_next; [|apply ui_rate].
  eapply ui_next; [|apply ui_toggle].
  eapply ui_next; [|apply ui_toggle].
  apply ui_started, reach_init.
Defined.

(* ====================================================================== *)
(** * Further properties: [formatDuration] *)
(* ====================================================================== *)

(** X10.  A negative duration loses its hours and minutes: neither count is
    ever positive, so the text is the remainder of the seconds modulo 60,
    with its sign; every negative multiple of 60 prints as "0s". *)
Theorem formatDuration_negative (seconds : Z) :
  seconds < 0 ->
  formatDuration seconds = JS.Number_toString (Z.rem seconds 60) ++ "s"
  /\ (Z.rem seconds 60 = 0 -> formatDuration seconds = "0s").
Proof.
  intros Hneg.
  assert (formatDuration seconds
          = JS.Number_toString (Z.rem seconds 60) ++ "s") as Heq.
  { unfold formatDuration, JS.floor_div, JS.remainder.
    assert (seconds / 3600 < 0) by (apply Z.div_lt_upper_bound; lia).
    assert (Z.rem seconds 3600 <= 0) by (apply Z.rem_nonpos; lia).
    assert (Z.rem seconds 3600 / 60 <= 0)
      by (apply Z.div_le_upper_bound; lia).
    destruct (Z.gtb_spec (seconds / 3600) 0); [lia|].
    destruct (Z.gtb_spec (Z.rem seconds 3600 / 60) 0); [lia|].
    reflexivity. }
  split; [exact Heq|].
  intros Hz. rewrite Heq, Hz. reflexivity.
Qed.

Lemma formatDuration_negative_witness :
  formatDuration (-125) = "-5s" /\ formatDuration (-3600) = "0s".
Proof.
  split.
  - rewrite (proj1 (formatDuration_negative (seconds := -125) eq_refl)).
    reflexivity.
  - exact (proj2 (formatDuration_negative (seconds := -3600) eq_refl) eq_refl).
Defined.

Lemma minutes_of_hour (seconds : Z) :
  0 <= seconds -> seconds mod 3600 / 60 = (seconds / 60) mod 60.
Proof.
  intros H.
  replace 3600 with (60 * 60) by reflexivity.
  rewrite Z.rem_mul_r by lia.
  rewrite (Z.mul_comm 60 ((seconds / 60) mod 60)).
  rewrite Z.div_add by lia.
  rewrite (Z.div_small (seconds mod 60) 60) by (apply Z.mod_pos_bound; lia).
  reflexivity.
Qed.

(** X11.  From one hour on the seconds are not shown: two durations of an
    hour or more that fall into the same minute print the same text. *)
Theorem formatDuration_hours_drop_seconds (s s' : Z) :
  3600 <= s -> 3600 <= s' -> s / 60 = s' / 60 ->
  formatDuration s = formatDuration s'.
Proof.
  intros Hs Hs' Hmin.
  rewrite !formatDuration_hours by assumption.
  rewrite !minutes_of_hour by lia.
  replace 3600 with (60 * 60) by reflexivity.
  rewrite <- !Z.div_div by lia.
  rewrite Hmin. reflexivity.
Qed.

Lemma formatDuration_hours_drop_seconds_witness :
  formatDuration 3600 = formatDuration 3659.
Proof.
  apply formatDuration_hours_drop_seconds; [lia | lia | reflexivity].
Defined.

(* ====================================================================== *)
(** * Further properties: the filter/sort pipeline *)
(* ====================================================================== *)

(** X12.  What the log view keeps: an entry of the input is shown exactly
    when its level is the selected one (or the filter is [all]) and its
    lower-cased message can be cut into a part before, the lower-cased
    search text, and a part after. *)
Theorem logs_filter_membership
    (toLowerCase : string -> string) (search level : string)
    (logs : list LogEntry.t) (log : LogEntry.t) :
  In log (filteredLogs toLowerCase search level logs)
  <-> In log logs
      /\ (level = "all" \/ LogEntry.level log = level)
      /\ exists before after,
           toLowerCase (LogEntry.message log)
           = before ++ toLowerCase search ++ after.
Proof.
  rewrite filteredLogs_filter, filter_In.
  unfold spec_log_kept, spec_level_matches, spec_contains_ignoring_case.
  rewrite andb_true_iff, orb_true_iff, !String.eqb_eq, includes_iff.
  reflexivity.
Qed.

Section SortedInputFacts.

Variable A : Type.
Variable comparefn : A -> A -> Q.
Hypothesis leq_total :
  forall x y, JS.not_after comparefn x y = true
              \/ JS.not_after comparefn y x = true.
Hypothesis leq_trans :
  forall x y z, JS.not_after comparefn x y = true ->
                JS.not_after comparefn y z = true ->
                JS.not_after comparefn x z = true.

(** An array that is in order already comes back as it is. *)
Lemma Array_sort_of_sorted (l : list A) :
  StronglySorted (JS.in_order comparefn) l -> JS.Array_sort comparefn l = l.
Proof.
  intros Hs. symmetry.
  apply Array_sort_unique; trivial.
Qed.

Lemma Array_sort_idempotent (l : list A) :
  JS.Array_sort comparefn (JS.Array_sort comparefn l)
  = JS.Array_sort comparefn l.
Proof. apply Array_sort_of_sorted, Array_sort_sorted; assumption. Qed.

End SortedInputFacts.

(** X13.  Tools that are already in the order of the selected key are shown
    in the order given, and sorting what the grid shows once more, by the
    same key, changes nothing.  For [name] this rests on the host's
    [localeCompare] being a consistent comparator. *)
Theorem tools_sort_fixes_sorted
    (localeCompare : string -> string -> Z)
    (localeCompare_antisym :
       forall a b, Z.sgn (localeCompare a b) = - Z.sgn (localeCompare b a))
    (localeCompare_trans :
       forall a b c,
         localeCompare a b <= 0 -> localeCompare b c <= 0 ->
         localeCompare a c <= 0)
    (tools : list Tool.t) :
  (StronglySorted (fun a b => Tool.call_count b <= Tool.call_count a) tools ->
   sortedTools localeCompare "calls" tools = tools)
  /\ (StronglySorted
        (fun a b => localeCompare (Tool.name a) (Tool.name b) <= 0) tools ->
      sortedTools localeCompare "name" tools = tools)
  /\ (StronglySorted
        (fun a b => (Tool.success_rate b <= Tool.success_rate a)%Q) tools ->
      sortedTools localeCompare "success" tools = tools)
  /\ forall sortBy,
       sortedTools localeCompare sortBy (sortedTools localeCompare sortBy tools)
       = sortedTools localeCompare sortBy tools.
Proof.
  repeat apply conj.
  - intros Hs. unfold sortedTools. cbn [String.eqb Ascii.eqb Bool.eqb].
    apply Array_sort_of_sorted;
      [apply by_calls_total | apply by_calls_trans |].
    eapply StronglySorted_impl; [|exact Hs].
    intros a b. unfold JS.in_order.
    rewrite by_calls_not_after, Z.leb_le. trivial.
  - intros Hs. unfold sortedTools. cbn [String.eqb Ascii.eqb Bool.eqb].
    apply Array_sort_of_sorted;
      [apply by_name_total | apply by_name_trans |]; trivial.
    eapply StronglySorted_impl; [|exact Hs].
    intros a b. unfold JS.in_order.
    rewrite by_name_not_after, Z.leb_le. trivial.
  - intros Hs. unfold sortedTools. cbn [String.eqb Ascii.eqb Bool.eqb].
    apply Array_sort_of_sorted;
      [apply by_success_total | apply by_success_trans |].
    eapply StronglySorted_impl; [|exact Hs].
    intros a b. unfold JS.in_order. apply by_success_not_after.
  - intros sortBy. unfold sortedTools.
    destruct (sortBy =? "calls");
      [apply Array_sort_idempotent;
       [apply by_calls_total | apply by_calls_trans]|].
    destruct (sortBy =? "name");
      [apply Array_sort_idempotent;
       [apply by_name_total | apply by_name_trans]; trivial|].
    destruct (sortBy =? "success");
      [apply Array_sort_idempotent;
       [apply by_success_total | apply by_success_trans]|].
    reflexivity.
Qed.

Lemma tools_sort_fixes_sorted_witness :
  sortedTools codeUnitCompare "calls" MockData.tools = MockData.tools.
Proof.
  apply (proj1 (@tools_sort_fixes_sorted codeUnitCompare
                  codeUnitCompare_antisym codeUnitCompare_trans
                  MockData.tools)).
  repeat constructor; cbn; lia.
Defined.

(* ====================================================================== *)
(** * Further properties: the refresh dispatcher *)
(* ====================================================================== *)

(** What a fetch function does to the world, in all cases: it returns a
    payload; it issues no request in demo mode and one otherwise; it writes
    neither [AppState] nor the timers. *)
Lemma fetchResource_effect (net : Network) (kind : ResourceKind) (w : World) :
  exists p clk cons,
    fetchResource net kind w
    = (JS.Return p,
       {| app := app w; clock := clk;
          requests := if AppState.demoMode (app w) then requests w
                      else (requests w ++ [resource_url w kind])%list;
          console := cons; timers := timers w;
          next_timer_id := next_timer_id w |}).
Proof.
  destruct (AppState.demoMode (app w)) eqn:Hdemo.
  - exists (mock_of kind), (clock w), (console w).
    rewrite (fetchResource_demo net kind w Hdemo). destruct w; reflexivity.
  - unfold resource_url.
    destruct kind; cbn;
      unfold fetchMetrics, fetchConnections, fetchTools, fetchLogs, bind, get_app,
        try_catch, fetch, response_json, response_ok, console_warn, ret, throw;
      rewrite Hdemo; cbn;
      match goal with
      | |- context [respond net ?u] => destruct (respond net u) as [msg|[|] [d|msg]]
      end; cbn; do 3 eexists; reflexivity.
Qed.

Section PageFacts.

Variable Dom : Type.
Variable net : Network.
Variable sinks : Page.Sinks Dom.
Implicit Types (pg : Page.t Dom) (kind : ResourceKind).

(** A body wrapped in [try]/[catch] with a handler that only logs returns,
    whatever the body does. *)
Lemma ptry_catch_returns (body : Page.PM Dom unit) (text : string) pg :
  fst (Page.ptry_catch body (Page.console_error text) pg) = JS.Return tt.
Proof.
  unfold Page.ptry_catch. destruct (body pg) as [[[]|e] pg']; reflexivity.
Qed.

Lemma refresh_of_returns kind pg :
  fst (refresh_of net sinks kind pg) = JS.Return tt.
Proof. destruct kind; apply ptry_catch_returns. Qed.

Lemma refreshHealth_returns pg :
  fst (Page.refreshHealth net sinks pg) = JS.Return tt.
Proof. apply ptry_catch_returns. Qed.

Lemma refreshCurrentSection_cases pg :
  let s := AppState.currentSection (app (Page.world pg)) in
  (exists kind, s = section_of kind
     /\ Page.refreshCurrentSection net sinks pg = refresh_of net sinks kind pg)
  \/ (s = "health"
      /\ Page.refreshCurrentSection net sinks pg
         = Page.refreshHealth net sinks pg)
  \/ ((forall kind, s <> section_of kind) /\ s <> "health"
      /\ Page.refreshCurrentSection net sinks pg = (JS.Return tt, pg)).
Proof.
  cbn zeta.
  unfold Page.refreshCurrentSection, Page.pbind, Page.lift, get_app. cbn.
  assert (Page.with_world (Page.world pg) pg = pg) as ->
      by (destruct pg; reflexivity).
  destruct (String.eqb_spec (AppState.currentSection (app (Page.world pg)))
              "dashboard") as [E1|E1];
    [left; exists metrics; split; [exact E1 | reflexivity]|].
  destruct (String.eqb_spec (AppState.currentSection (app (Page.world pg)))
              "health") as [E2|E2];
    [right; left; split; [exact E2 | reflexivity]|].
  destruct (String.eqb_spec (AppState.currentSection (app (Page.world pg)))
              "connections") as [E3|E3];
    [left; exists connections; split; [exact E3 | reflexivity]|].
  destruct (String.eqb_spec (AppState.currentSection (app (Page.world pg)))
              "tools") as [E4|E4];
    [left; exists tools; split; [exact E4 | reflexivity]|].
  destruct (String.eqb_spec (AppState.currentSection (app (Page.world pg)))
              "logs") as [E5|E5];
    [left; exists logs; split; [exact E5 | reflexivity]|].
  right; right. repeat split; trivial.
  intros kind; destruct kind; assumption.
Qed.

End PageFacts.

(** X14.  No refresh throws: each of the five refresh functions and
    [refreshCurrentSection] returns normally whatever the network answers and
    whatever the render sinks do, so a failing view cannot stop the timer
    that calls the dispatcher.  For a section without data ([settings], or a
    name the dispatcher does not know) [refreshCurrentSection] leaves the
    page as it is. *)
Theorem refresh_never_throws
    (Dom : Type) (net : Network) (sinks : Page.Sinks Dom) (pg : Page.t Dom) :
  fst (Page.refreshDashboard net sinks pg) = JS.Return tt
  /\ fst (Page.refreshHealth net sinks pg) = JS.Return tt
  /\ fst (Page.refreshConnections net sinks pg) = JS.Return tt
  /\ fst (Page.refreshTools net sinks pg) = JS.Return tt
  /\ fst (Page.refreshLogs net sinks pg) = JS.Return tt
  /\ fst (Page.refreshCurrentSection net sinks pg) = JS.Return tt
  /\ ((forall kind,
         AppState.currentSection (app (Page.world pg)) <> section_of kind) ->
      AppState.currentSection (app (Page.world pg)) <> "health" ->
      snd (Page.refreshCurrentSection net sinks pg) = pg).
Proof.
  repeat apply conj; try apply ptry_catch_returns.
  - destruct (refreshCurrentSection_cases net sinks pg)
      as [[kind [_ ->]] | [[_ ->] | [_ [_ ->]]]].
    + apply refresh_of_returns.
    + apply refreshHealth_returns.
    + reflexivity.
  - intros Hk Hh.
    destruct (refreshCurrentSection_cases net sinks pg)
      as [[kind [E _]] | [[E _] | [_ [_ ->]]]].
    + elim (Hk kind E).
    + elim (Hh E).
    + reflexivity.
Qed.

Lemma refresh_never_throws_witness :
  fst (Page.refreshConnections offline_net faulty_sinks (page_of live_world))
  = JS.Return tt.
Proof.
  exact (proj1 (proj2 (proj2
           (refresh_never_throws offline_net faulty_sinks (page_of live_world))))).
Defined.

(** Unfolding of the page monad and one case split per call of a sink. *)
Ltac page_unfold :=
  unfold Page.refreshDashboard, Page.refreshHealth, Page.refreshConnections,
    Page.refreshTools, Page.refreshLogs, Page.updateLastUpdate,
    Page.on_clearLogs_click, Page.switchSection, Page.initializeApp,
    Page.on_demoMode_change,
    Page.ptry_catch, Page.pbind, Page.lift, Page.get_cache, Page.put_cache,
    Page.console_error, Page.run_sink, Page.pret, Date_now, get_app, put_app
    in *.

Ltac sink_cases :=
  repeat match goal with
         | H : sink_throws ?s ?a ?e |- context [?s ?a ?pg] =>
             let Hs := fresh "Hs" in
             pose proof (H pg) as Hs;
             destruct (s a pg) as [? [? ?]]; cbn in Hs; subst; cbn
         | H : sink_returns ?s ?a |- context [?s ?a ?pg] =>
             let Hs := fresh "Hs" in
             pose proof (H pg) as Hs;
             destruct (s a pg) as [? [? ?]]; cbn in Hs; subst; cbn
         | |- context [match ?x with | (_, _) => _ end] =>
             match type of x with
             | (JS.Completion unit * (_ * string))%type =>
                 destruct x as [[[]|?] [? ?]]; cbn
             end
         end.

Section RefreshFacts.

Variable Dom : Type.
Variable net : Network.
Variable sinks : Page.Sinks Dom.
Implicit Types (pg : Page.t Dom) (kind : ResourceKind).

(** A refresh leaves the settings and the timers alone: of [AppState] it
    writes [serverStatus] at most. *)
Lemma refresh_of_same_settings kind pg :
  same_settings (Page.world pg) (Page.world (snd (refresh_of net sinks kind pg)))
  /\ Page.dataTheme (snd (refresh_of net sinks kind pg)) = Page.dataTheme pg.
Proof.
  destruct (fetchResource_effect net kind (Page.world pg)) as [p [clk [cons Hf]]].
  unfold same_settings.
  destruct kind; cbn [refresh_of fetchResource] in *; page_unfold;
    rewrite Hf; cbn; sink_cases; repeat split.
Qed.

Lemma refreshHealth_same_settings pg :
  same_settings (Page.world pg)
    (Page.world (snd (Page.refreshHealth net sinks pg)))
  /\ Page.dataTheme (snd (Page.refreshHealth net sinks pg)) = Page.dataTheme pg.
Proof.
  destruct (fetchResource_effect net metrics (Page.world pg))
    as [p [clk [cons Hf]]].
  unfold same_settings. cbn [fetchResource] in *. page_unfold.
  rewrite Hf; cbn; sink_cases; repeat split.
Qed.

Lemma refresh_of_caches kind pg :
  exists p,
    result (fetchResource net kind) (Page.world pg) = JS.Return p
    /\ cached kind (Page.cache (snd (refresh_of net sinks kind pg))) = Some p
    /\ forall kind', kind' <> kind ->
         cached kind' (Page.cache (snd (refresh_of net sinks kind pg)))
         = cached kind' (Page.cache pg).
Proof.
  destruct (fetchResource_effect net kind (Page.world pg)) as [p [clk [cons Hf]]].
  exists p. unfold result. rewrite Hf. split; [reflexivity|].
  destruct kind; cbn [refresh_of fetchResource] in *; page_unfold;
    rewrite Hf; cbn; sink_cases;
    (split; [reflexivity | intros [] Hne; try reflexivity; congruence]).
Qed.

Lemma refresh_of_requests kind pg :
  requests (Page.world (snd (refresh_of net sinks kind pg)))
  = requests (exec (fetchResource net kind) (Page.world pg)).
Proof.
  destruct (fetchResource_effect net kind (Page.world pg)) as [p [clk [cons Hf]]].
  unfold exec. rewrite Hf.
  destruct kind; cbn [refresh_of fetchResource] in *; page_unfold;
    rewrite Hf; cbn; sink_cases; reflexivity.
Qed.

Lemma refreshHealth_effect pg :
  Page.cache (snd (Page.refreshHealth net sinks pg)) = Page.cache pg
  \/ exists t,
       Page.cache (snd (Page.refreshHealth net sinks pg))
       = {| metricsData := metricsData (Page.cache pg);
            connectionsData := connectionsData (Page.cache pg);
            toolsData := toolsData (Page.cache pg);
            logsData := logsData (Page.cache pg);
            lastUpdate := Some t |}.
Proof.
  destruct (fetchResource_effect net metrics (Page.world pg))
    as [p [clk [cons Hf]]].
  cbn [fetchResource] in *. page_unfold.
  rewrite Hf; cbn; sink_cases; eauto.
Qed.

Lemma refreshHealth_requests pg :
  requests (Page.world (snd (Page.refreshHealth net sinks pg)))
  = requests (exec (fetchMetrics net) (Page.world pg)).
Proof.
  destruct (fetchResource_effect net metrics (Page.world pg))
    as [p [clk [cons Hf]]].
  unfold exec. cbn [fetchResource] in *. rewrite Hf. page_unfold.
  rewrite Hf; cbn; sink_cases; reflexivity.
Qed.

End RefreshFacts.

Lemma section_of_inj (k k' : ResourceKind) : section_of k = section_of k' -> k = k'.
Proof. destruct k, k'; cbn; intros H; try reflexivity; discriminate. Qed.

Lemma section_of_not_health (k : ResourceKind) : section_of k <> "health".
Proof. destruct k; discriminate. Qed.

Lemma same_settings_refl (w : World) : same_settings w w.
Proof. repeat split. Qed.

Lemma same_settings_trans (w1 w2 w3 : World) :
  same_settings w1 w2 -> same_settings w2 w3 -> same_settings w1 w3.
Proof.
  intros [Ht [Hn Ha]] [Ht' [Hn' Ha']].
  repeat split; congruence.
Qed.

Lemma same_settings_fields (w w' : World) :
  same_settings w w' ->
  AppState.refreshInterval (app w') = AppState.refreshInterval (app w)
  /\ AppState.autoRefresh (app w') = AppState.autoRefresh (app w)
  /\ AppState.refreshRate (app w') = AppState.refreshRate (app w)
  /\ AppState.currentSection (app w') = AppState.currentSection (app w)
  /\ AppState.demoMode (app w') = AppState.demoMode (app w)
  /\ AppState.apiEndpoint (app w') = AppState.apiEndpoint (app w)
  /\ AppState.theme (app w') = AppState.theme (app w).
Proof.
  intros [_ [_ Ha]].
  repeat split.
  - exact (f_equal AppState.refreshInterval Ha).
  - exact (f_equal AppState.autoRefresh Ha).
  - exact (f_equal AppState.refreshRate Ha).
  - exact (f_equal AppState.currentSection Ha).
  - exact (f_equal AppState.demoMode Ha).
  - exact (f_equal AppState.apiEndpoint Ha).
  - exact (f_equal AppState.theme Ha).
Qed.

Lemma same_settings_reachable (w w' : World) :
  same_settings w w' -> reachable w -> reachable w'.
Proof.
  intros Hs Hw. destruct (same_settings_fields Hs) as [Hh _].
  destruct Hs as [Ht [Hn _]].
  eapply reach_step; [exact Hw | apply step_other; assumption].
Qed.

Section DispatchFacts.

Variable Dom : Type.
Variable net : Network.
Variable sinks : Page.Sinks Dom.
Implicit Types (pg : Page.t Dom) (kind : ResourceKind).

Lemma refreshCurrentSection_same_settings pg :
  same_settings (Page.world pg)
    (Page.world (snd (Page.refreshCurrentSection net sinks pg))).
Proof.
  destruct (refreshCurrentSection_cases net sinks pg)
    as [[kind [_ ->]] | [[_ ->] | [_ [_ ->]]]].
  - apply refresh_of_same_settings.
  - apply refreshHealth_same_settings.
  - apply same_settings_refl.
Qed.

Lemma refreshCurrentSection_returns pg :
  fst (Page.refreshCurrentSection net sinks pg) = JS.Return tt.
Proof.
  destruct (refreshCurrentSection_cases net sinks pg)
    as [[kind [_ ->]] | [[_ ->] | [_ [_ ->]]]].
  - apply refresh_of_returns.
  - apply refreshHealth_returns.
  - reflexivity.
Qed.

End DispatchFacts.

(** X15.  In demo mode the dispatcher stays off the network: whichever
    section is current, [refreshCurrentSection] issues no request, and for a
    section with data the cache afterwards holds the built-in mock value of
    its resource. *)
Theorem demo_refresh_is_offline
    (Dom : Type) (net : Network) (sinks : Page.Sinks Dom) (pg : Page.t Dom) :
  AppState.demoMode (app (Page.world pg)) = true ->
  requests (Page.world (snd (Page.refreshCurrentSection net sinks pg)))
  = requests (Page.world pg)
  /\ forall kind,
       AppState.currentSection (app (Page.world pg)) = section_of kind ->
       cached kind (Page.cache (snd (Page.refreshCurrentSection net sinks pg)))
       = Some (mock_of kind).
Proof.
  intros Hdemo.
  destruct (refreshCurrentSection_cases net sinks pg)
    as [[kind [E ->]] | [[E ->] | [Hk [_ ->]]]].
  - split.
    + rewrite refresh_of_requests. unfold exec.
      rewrite (fetchResource_demo net kind _ Hdemo). reflexivity.
    + intros kind' E'. rewrite E in E'. apply section_of_inj in E'. subst kind'.
      destruct (refresh_of_caches net sinks kind pg) as [p [Hp [Hc _]]].
      unfold result in Hp. rewrite (fetchResource_demo net kind _ Hdemo) in Hp.
      cbn in Hp. congruence.
  - split.
    + rewrite refreshHealth_requests. unfold exec.
      change (fetchMetrics net) with (fetchResource net metrics).
      rewrite (fetchResource_demo net metrics _ Hdemo). reflexivity.
    + intros kind E'. rewrite E in E'. symmetry in E'.
      elim (section_of_not_health kind E').
  - split; [reflexivity|]. intros kind E'. elim (Hk kind E').
Qed.

Lemma demo_refresh_is_offline_witness :
  requests
    (Page.world (snd (Page.refreshCurrentSection offline_net quiet_sinks
                        initial_page))) = []
  /\ metricsData
       (Page.cache (snd (Page.refreshCurrentSection offline_net quiet_sinks
                           initial_page)))
     = Some (PMetrics MockData.metrics).
Proof.
  destruct (demo_refresh_is_offline offline_net quiet_sinks initial_page eq_refl)
    as [Hreq Hc].
  split; [exact Hreq | exact (Hc metrics eq_refl)].
Defined.

(** X16.  A refresh caches before it renders.  Each refresh function of a
    data resource makes the one fetch and stores what the fetch returned in
    the cache field of its resource, leaving the other collections alone;
    this holds also when a render sink throws. *)
Theorem refresh_caches_what_was_fetched
    (Dom : Type) (net : Network) (sinks : Page.Sinks Dom)
    (kind : ResourceKind) (pg : Page.t Dom) :
  exists p,
    result (fetchResource net kind) (Page.world pg) = JS.Return p
    /\ cached kind (Page.cache (snd (refresh_of net sinks kind pg))) = Some p
    /\ (forall kind', kind' <> kind ->
          cached kind' (Page.cache (snd (refresh_of net sinks kind pg)))
          = cached kind' (Page.cache pg))
    /\ requests (Page.world (snd (refresh_of net sinks kind pg)))
       = requests (exec (fetchResource net kind) (Page.world pg)).
Proof.
  destruct (refresh_of_caches net sinks kind pg) as [p [Hp [Hc Ho]]].
  exists p. repeat split; trivial. apply refresh_of_requests.
Qed.

(** X17.  The health view fetches the metrics as the dashboard does, but
    does not cache them: [refreshHealth] leaves all four cached collections
    as they were. *)
Theorem refreshHealth_does_not_cache
    (Dom : Type) (net : Network) (sinks : Page.Sinks Dom) (pg : Page.t Dom) :
  (forall kind,
     cached kind (Page.cache (snd (Page.refreshHealth net sinks pg)))
     = cached kind (Page.cache pg))
  /\ requests (Page.world (snd (Page.refreshHealth net sinks pg)))
     = requests (exec (fetchMetrics net) (Page.world pg)).
Proof.
  split; [|apply refreshHealth_requests].
  intros kind.
  destruct (refreshHealth_effect net sinks pg) as [-> | [t ->]];
    destruct kind; reflexivity.
Qed.

Section RenderOutcome.

Variable Dom : Type.
Variable net : Network.
Variable sinks : Page.Sinks Dom.



End RenderOutcome.



Section HandlerFacts.

Variable Dom : Type.
Variable net : Network.
Variable sinks : Page.Sinks Dom.
Implicit Types pg : Page.t Dom.

Lemma on_clearLogs_click_effect pg :
  let pg' := snd (Page.on_clearLogs_click sinks pg) in
  logsData (Page.cache pg') = PLogs []
  /\ same_settings (Page.world pg) (Page.world pg')
  /\ requests (Page.world pg') = requests (Page.world pg).
Proof.
  cbn zeta. unfold same_settings. page_unfold. cbn. sink_cases; repeat split.
Qed.

(** X20.  Clearing the logs does not last.  The button empties the cached
    logs without touching the network; the next refresh of the logs fetches
    again and caches what it gets, so in demo mode the four mock entries are
    back. *)
Theorem clear_logs_is_undone_by_refresh pg :
  let cleared := snd (Page.on_clearLogs_click sinks pg) in
  logsData (Page.cache cleared) = PLogs []
  /\ requests (Page.world cleared) = requests (Page.world pg)
  /\ (exists p,
        result (fetchLogs net) (Page.world cleared) = JS.Return p
        /\ logsData (Page.cache (snd (Page.refreshLogs net sinks cleared))) = p)
  /\ (AppState.demoMode (app (Page.world pg)) = true ->
      logsData (Page.cache (snd (Page.refreshLogs net sinks cleared)))
      = PLogs MockData.logs).
Proof.
  cbn zeta.
  destruct (on_clearLogs_click_effect pg) as [Hc [Hs Hr]]. cbn zeta in *.
  set (cleared := snd (Page.on_clearLogs_click sinks pg)) in *.
  destruct (refresh_of_caches net sinks logs cleared) as [p [Hp [Hl _]]].
  cbn [refresh_of fetchResource cached] in *. injection Hl as Hl.
  repeat split; trivial.
  - exists p. split; assumption.
  - intros Hdemo.
    destruct (same_settings_fields Hs) as [_ [_ [_ [_ [Hd _]]]]].
    rewrite <- Hd in Hdemo.
    unfold result in Hp.
    change (fetchLogs net) with (fetchResource net logs) in Hp.
    rewrite (fetchResource_demo net logs _ Hdemo) in Hp. cbn in Hp.
    congruence.
Qed.

(** X21.  [switchSection] changes the current section only after the section
    could be shown.  When showing it throws (there is no such section), the
    call throws, [AppState.currentSection] and the cache stay as they were
    and nothing is fetched.  When showing it returns, the call returns and
    the current section is the new one. *)
Theorem switchSection_outcome (sectionName : string) pg :
  (forall e,
     fst (Page.showSection sinks sectionName pg) = JS.Throw e ->
     let pg' := snd (Page.switchSection net sinks sectionName pg) in
     fst (Page.switchSection net sinks sectionName pg) = JS.Throw e
     /\ AppState.currentSection (app (Page.world pg'))
        = AppState.currentSection (app (Page.world pg))
     /\ Page.cache pg' = Page.cache pg
     /\ requests (Page.world pg') = requests (Page.world pg))
  /\ (fst (Page.showSection sinks sectionName pg) = JS.Return tt ->
      fst (Page.switchSection net sinks sectionName pg) = JS.Return tt
      /\ AppState.currentSection
           (app (Page.world (snd (Page.switchSection net sinks sectionName pg))))
         = sectionName).
Proof.
  split.
  - intros e He. cbn zeta.
    unfold Page.switchSection, Page.pbind, Page.run_sink.
    destruct (Page.showSection sinks sectionName pg) as [c [d st]].
    cbn in He. subst c. repeat split.
  - intros Hr.
    unfold Page.switchSection, Page.pbind, Page.run_sink, Page.lift, get_app,
      put_app.
    destruct (Page.showSection sinks sectionName pg) as [c [d st]].
    cbn in Hr. subst c. cbn -[Page.refreshCurrentSection].
    match goal with
    | |- context [Page.refreshCurrentSection net sinks ?q] =>
        pose proof (refreshCurrentSection_returns net sinks q) as Hret;
        pose proof (refreshCurrentSection_same_settings net sinks q) as Hs
    end.
    split; [exact Hret|].
    destruct (same_settings_fields Hs) as [_ [_ [_ [Hc _]]]].
    rewrite Hc. reflexivity.
Qed.

End HandlerFacts.

Section InitFacts.

Variable Dom : Type.
Variable net : Network.
Variable sinks : Page.Sinks Dom.
Implicit Types pg : Page.t Dom.

(** The world of the page when [initializeApp] reaches [startAutoRefresh],
    provided the three set-up sinks returned. *)
Lemma initializeApp_returns pg :
  sink_returns (Page.setupEventListeners sinks) tt ->
  sink_returns (Page.showApiEndpoint sinks)
    (AppState.apiEndpoint (app (Page.world pg))) ->
  sink_returns (Page.initializeCharts sinks) tt ->
  exists pg1,
    same_settings (Page.world pg) (Page.world pg1)
    /\ fst (Page.initializeApp net sinks pg) = JS.Return tt
    /\ Page.world (snd (Page.initializeApp net sinks pg))
       = exec startAutoRefresh (Page.world pg1)
    /\ Page.cache (snd (Page.initializeApp net sinks pg)) = Page.cache pg1
    /\ exists p, metricsData (Page.cache pg1) = Some p.
Proof.
  intros H1 H2 H3.
  unfold Page.initializeApp, Page.pbind, Page.run_sink, Page.lift, get_app.
  pose proof (H1 pg) as Hs1.
  destruct (Page.setupEventListeners sinks tt pg) as [c1 [d1 st1]].
  cbn in Hs1. subst c1. cbn -[Page.refreshDashboard startAutoRefresh].
  match goal with
  | |- context [Page.showApiEndpoint sinks ?a ?q] =>
      pose proof (H2 q) as Hs2;
      destruct (Page.showApiEndpoint sinks a q) as [c2 [d2 st2]]
  end.
  cbn in Hs2. subst c2. cbn -[Page.refreshDashboard startAutoRefresh].
  match goal with
  | |- context [Page.initializeCharts sinks tt ?q] =>
      pose proof (H3 q) as Hs3;
      destruct (Page.initializeCharts sinks tt q) as [c3 [d3 st3]]
  end.
  cbn in Hs3. subst c3. cbn -[Page.refreshDashboard startAutoRefresh].
  match goal with
  | |- context [Page.refreshDashboard net sinks ?q] =>
      pose proof (refresh_of_returns net sinks metrics q) as Hret;
      pose proof (proj1 (refresh_of_same_settings net sinks metrics q)) as Hset;
      destruct (refresh_of_caches net sinks metrics q) as [p [_ [Hc _]]];
      cbn [refresh_of cached] in Hret, Hset, Hc;
      destruct (Page.refreshDashboard net sinks q) as [c pg1]
  end.
  cbn in Hret, Hset, Hc. subst c. cbn -[startAutoRefresh].
  exists pg1. unfold exec.
  destruct (startAutoRefresh (Page.world pg1)) as [[[]|e] w'] eqn:Hstart.
  - cbn. repeat split; try apply Hset. exists p. exact Hc.
  - exfalso. revert Hstart.
    unfold startAutoRefresh, bind, get_app, put_app, setInterval, clearInterval,
      ret.
    cbn. destruct (truthy_handle _); cbn;
      destruct (AppState.autoRefresh _); discriminate.
Qed.


End InitFacts.


(* ====================================================================== *)
(** * Further properties: the theme *)
(* ====================================================================== *)

Section ThemeFacts.

Variable Dom : Type.
Implicit Types pg : Page.t Dom.

Lemma applyTheme_effect (theme : string) pg :
  Page.applyTheme theme pg
  = (JS.Return tt,
     {| Page.world := with_app (set_theme theme (app (Page.world pg)))
                        (Page.world pg);
        Page.cache := Page.cache pg;
        Page.dataTheme := if theme =? "auto" then None else Some theme;
        Page.errors := Page.errors pg;
        Page.dom := Page.dom pg |}).
Proof. reflexivity. Qed.

Lemma toggles_to_light_spec (o : option string) :
  Page.toggles_to_light o = true
  <-> o = None \/ o = Some "" \/ o = Some "dark".
Proof.
  destruct o as [v|]; cbn.
  - rewrite orb_true_iff, String.eqb_eq. destruct v as [|c v]; cbn.
    + split; [intros _; right; left; reflexivity | intros _; left; reflexivity].
    + split.
      * intros [H|H]; [discriminate | right; right; congruence].
      * intros [H|[H|H]]; try discriminate. right. congruence.
  - split; [intros _; left; reflexivity | reflexivity].
Qed.

Lemma toggleTheme_effect pg :
  let theme := if Page.toggles_to_light (Page.dataTheme pg)
               then "light" else "dark" in
  fst (Page.toggleTheme pg) = JS.Return tt
  /\ Page.dataTheme (snd (Page.toggleTheme pg)) = Some theme
  /\ AppState.theme (app (Page.world (snd (Page.toggleTheme pg)))) = theme.
Proof.
  cbn zeta. unfold Page.toggleTheme.
  destruct (Page.toggles_to_light (Page.dataTheme pg));
    rewrite applyTheme_effect; repeat split.
Qed.

(** X23.  The toggle button switches between light and dark and nothing
    else.  From dark, from an attribute that is present and empty, and from
    a page without the attribute (theme [auto], whatever the system
    preference is), it selects light; from any other value it selects dark.
    It never goes back to [auto]: two toggles in a row restore the theme
    exactly when it was light or dark before. *)
Theorem toggleTheme_outcome pg :
  let pg1 := snd (Page.toggleTheme pg) in
  let pg2 := snd (Page.toggleTheme pg1) in
  fst (Page.toggleTheme pg) = JS.Return tt
  /\ (Page.dataTheme pg = None \/ Page.dataTheme pg = Some EmptyString
      \/ Page.dataTheme pg = Some "dark" ->
      Page.dataTheme pg1 = Some "light"
      /\ AppState.theme (app (Page.world pg1)) = "light")
  /\ (forall v, Page.dataTheme pg = Some v -> v <> "" -> v <> "dark" ->
      Page.dataTheme pg1 = Some "dark"
      /\ AppState.theme (app (Page.world pg1)) = "dark")
  /\ (Page.dataTheme pg1 = Some "light" \/ Page.dataTheme pg1 = Some "dark")
  /\ (Page.dataTheme pg2 = Page.dataTheme pg
      <-> Page.dataTheme pg = Some "light" \/ Page.dataTheme pg = Some "dark").
Proof.
  cbn zeta.
  destruct (toggleTheme_effect pg) as [Hret [Hd1 Ht1]].
  destruct (toggleTheme_effect (snd (Page.toggleTheme pg))) as [_ [Hd2 _]].
  cbn zeta in *. rewrite Hd1 in Hd2. rewrite Hd2, Hd1, Ht1. clear Hd2 Hd1 Ht1.
  pose proof (toggles_to_light_spec (Page.dataTheme pg)) as Hspec.
  destruct (Page.toggles_to_light (Page.dataTheme pg)).
  - destruct (proj1 Hspec eq_refl) as [H|[H|H]]; rewrite H;
      repeat split; cbn; auto; try (intros; congruence);
      try (intros [E|E]; congruence).
  - assert (Page.dataTheme pg <> None /\ Page.dataTheme pg <> Some ""
            /\ Page.dataTheme pg <> Some "dark") as [Hn [He Hk]].
    { repeat split; intros E; rewrite E in Hspec;
        assert (false = true) by (apply Hspec; auto); discriminate. }
    repeat split; cbn; auto; try (intros; congruence);
      try (intros [E|E]; congruence);
      match goal with
      | H : _ \/ _ \/ _ |- _ => destruct H as [H|[H|H]]; congruence
      | H : _ \/ _ |- _ => destruct H; congruence
      end.
Qed.

(** X24.  After every theme event, the toggle button or the select with
    whatever value, [AppState.theme] and the [data-theme] attribute of the
    page agree: the attribute is absent exactly when the theme is [auto],
    and otherwise it holds the theme. *)
Theorem theme_events_keep_agreement pg pg' :
  Page.theme_step pg pg' -> Page.theme_agrees pg'.
Proof.
  intros Hstep. destruct Hstep as [pg | pg value]; unfold Page.theme_agrees.
  - unfold Page.toggleTheme.
    destruct (Page.toggles_to_light (Page.dataTheme pg));
      rewrite applyTheme_effect; cbn; (split; [reflexivity | discriminate]).
  - unfold Page.on_themeSelect_change. rewrite applyTheme_effect. cbn.
    destruct (String.eqb_spec value "auto") as [E|E]; cbn.
    + exact E.
    + split; [reflexivity | exact E].
Qed.

End ThemeFacts.

Lemma toggleTheme_outcome_witness :
  Page.dataTheme (snd (Page.toggleTheme initial_page)) = Some "light"
  /\ Page.dataTheme
       (snd (Page.toggleTheme (snd (Page.toggleTheme initial_page))))
     <> Page.dataTheme initial_page
  /\ Page.dataTheme blank_theme_page = Some EmptyString
  /\ Page.dataTheme (snd (Page.toggleTheme blank_theme_page)) = Some "light"
  /\ AppState.theme (app (Page.world (snd (Page.toggleTheme blank_theme_page))))
     = "light".
Proof.
  destruct (toggleTheme_outcome initial_page) as [_ [Hl [_ [_ Htwice]]]].
  destruct (toggleTheme_outcome blank_theme_page) as [_ [Hblank _]].
  split; [exact (proj1 (Hl (or_introl eq_refl)))|].
  split; [intros H; apply Htwice in H; destruct H; discriminate|].
  split; [reflexivity|].
  exact (Hblank (or_intror (or_introl eq_refl))).
Defined.

Lemma theme_events_keep_agreement_witness :
  Page.theme_agrees (snd (Page.on_themeSelect_change "dark" initial_page))
  /\ Page.theme_agrees (snd (Page.toggleTheme initial_page)).
Proof.
  split.
  - apply (theme_events_keep_agreement (pg := initial_page)).
    apply Page.theme_select.
  - apply (theme_events_keep_agreement (pg := initial_page)).
    apply Page.theme_toggle.
Defined.

(* ====================================================================== *)
(** * Further properties: settings that take effect at once *)
(* ====================================================================== *)

(** X25.  The demo-mode switch takes effect with the refresh it triggers.
    The handler never throws and leaves [AppState.demoMode] as chosen.
    Switched on, it makes no request; switched off, on a section with data,
    its refresh makes exactly one request, to that resource under the
    configured endpoint. *)
Theorem demo_toggle_takes_effect_at_once
    (Dom : Type) (net : Network) (sinks : Page.Sinks Dom)
    (checked : bool) (pg : Page.t Dom) :
  let pg' := snd (Page.on_demoMode_change net sinks checked pg) in
  fst (Page.on_demoMode_change net sinks checked pg) = JS.Return tt
  /\ AppState.demoMode (app (Page.world pg')) = checked
  /\ (checked = true -> requests (Page.world pg') = requests (Page.world pg))
  /\ (checked = false ->
      forall kind,
        AppState.currentSection (app (Page.world pg)) = section_of kind ->
        requests (Page.world pg')
        = (requests (Page.world pg)
             ++ [(AppState.apiEndpoint (app (Page.world pg)) ++ path_of kind)%string])%list).
Proof.
  cbn zeta.
  unfold Page.on_demoMode_change, Page.pbind, Page.lift, get_app, put_app.
  cbn -[Page.refreshCurrentSection].
  set (pg0 := Page.with_world _ _).
  assert (AppState.demoMode (app (Page.world pg0)) = checked
          /\ AppState.currentSection (app (Page.world pg0))
             = AppState.currentSection (app (Page.world pg))
          /\ requests (Page.world pg0) = requests (Page.world pg)
          /\ AppState.apiEndpoint (app (Page.world pg0))
             = AppState.apiEndpoint (app (Page.world pg)))
    as [Hd0 [Hc0 [Hr0 He0]]] by (repeat split).
  pose proof (refreshCurrentSection_same_settings net sinks pg0) as Hs.
  destruct (same_settings_fields Hs) as [_ [_ [_ [_ [Hd _]]]]].
  split; [apply refreshCurrentSection_returns|].
  split; [congruence|].
  split.
  - intros ->.
    destruct (refreshCurrentSection_cases net sinks pg0)
      as [[kind [_ ->]] | [[_ ->] | [_ [_ ->]]]].
    + rewrite refresh_of_requests. unfold exec.
      rewrite (fetchResource_demo net kind _ Hd0). exact Hr0.
    + rewrite refreshHealth_requests. unfold exec.
      change (fetchMetrics net) with (fetchResource net metrics).
      rewrite (fetchResource_demo net metrics _ Hd0). exact Hr0.
    + exact Hr0.
  - intros -> kind Hk. rewrite <- Hc0 in Hk.
    destruct (refreshCurrentSection_cases net sinks pg0)
      as [[kind' [E ->]] | [[E _] | [Hno _]]].
    + rewrite Hk in E. apply section_of_inj in E. subst kind'.
      rewrite refresh_of_requests.
      rewrite (proj1 (fetchResource_live net kind _ Hd0)).
      unfold resource_url. rewrite Hr0, He0. reflexivity.
    + rewrite Hk in E. elim (section_of_not_health kind E).
    + elim (Hno kind Hk).
Qed.

Lemma demo_toggle_takes_effect_at_once_witness :
  requests
    (Page.world (snd (Page.on_demoMode_change offline_net quiet_sinks false
                        initial_page)))
  = ["http://localhost:8000/api/metrics"].
Proof.
  destruct (demo_toggle_takes_effect_at_once offline_net quiet_sinks false
              initial_page) as [_ [_ [_ Hoff]]].
  exact (Hoff eq_refl metrics eq_refl).
Defined.

(** X26.  [startAutoRefresh] is its own restart: with auto-refresh on,
    calling it gives the very state that stopping first and then starting
    gives, whether or not a timer was live. *)
Theorem start_is_stop_then_start (w : World) :
  AppState.autoRefresh (app w) = true ->
  exec startAutoRefresh (exec stopAutoRefresh w) = exec startAutoRefresh w.
Proof.
  intros Hon.
  unfold startAutoRefresh, stopAutoRefresh, exec, bind, get_app, put_app,
    setInterval, clearInterval, ret.
  cbn.
  destruct (truthy_handle (AppState.refreshInterval (app w))) eqn:Htr;
    cbn; rewrite ?Htr, ?Hon; cbn; rewrite ?Hon; reflexivity.
Qed.

Lemma start_is_stop_then_start_witness :
  exec startAutoRefresh
    (exec stopAutoRefresh (exec startAutoRefresh initial_world))
  = exec startAutoRefresh (exec startAutoRefresh initial_world).
Proof.
  apply start_is_stop_then_start. reflexivity.
Defined.

(** X27.  While a probe of the test-connection button is pending, the
    candidate is the configured endpoint for everybody: outside demo mode, a
    fetch that runs between the click and the answer of the probe goes to
    the candidate, tested or not.  (The world of that fetch is any world
    whose [AppState] is the one the click left.) *)
Theorem fetch_during_probe_uses_candidate
    (net : Network) (input : string) (kind : ResourceKind) (w probing : World) :
  AppState.demoMode (app w) = false ->
  app probing = app (exec (testConnection_before_await input) w) ->
  requests (exec (fetchResource net kind) probing)
  = (requests probing
       ++ [(JS.or_string input (AppState.apiEndpoint (app w))
              ++ path_of kind)%string])%list.
Proof.
  intros Hlive Happ.
  unfold exec in Happ. rewrite testConnection_before_await_spec in Happ.
  cbn [snd] in Happ.
  assert (AppState.demoMode (app probing) = false) as Hlive'
      by (rewrite Happ; exact Hlive).
  rewrite (proj1 (fetchResource_live net kind probing Hlive')).
  unfold resource_url. rewrite Happ. reflexivity.
Qed.

Lemma fetch_during_probe_uses_candidate_witness :
  requests
    (exec (fetchResource offline_net logs)
       (exec (checkHealth offline_net)
          (exec (testConnection_before_await "http://down.test") live_world)))
  = ["http://down.test/health"; "http://down.test/api/logs"].
Proof.
  exact (@fetch_during_probe_uses_candidate offline_net "http://down.test" logs
           live_world
           (exec (checkHealth offline_net)
              (exec (testConnection_before_await "http://down.test")
                 live_world))
           eq_refl eq_refl).
Defined.
